(** * A shallow embedding of [mapbox::util::variant] (variant.hpp)

    The container is a class template over a pack of alternative types.
    Types are represented by codes [ty] with a denotation [den]; a pack
    [Types...] is a [list ty]; [std::size_t] is a 64-bit unsigned integer
    carried by [Z]; a call that can throw returns an [outcome]; objects
    that are passed by reference live in a [store]. *)

From Stdlib Require Import ZArith Lia.
From stdpp Require Import base decidable option list strings pretty gmap.

Local Open Scope string_scope.
Local Open Scope Z_scope.

(** ** Results of calls *)

(** A C++ call either returns, leaves by [throw std::runtime_error(what)],
    or has no defined behaviour (a [reinterpret_cast] of storage that does
    not hold a live object of the requested type). *)
Inductive outcome (A : Type) : Type :=
  | Ret (a : A)
  | Throw (what : string)
  | Undefined.
Arguments Ret {A} a.
Arguments Throw {A} what.
Arguments Undefined {A}.

Definition outcome_bind {A B} (f : A -> outcome B) (m : outcome A) : outcome B :=
  match m with
  | Ret a => f a
  | Throw w => Throw w
  | Undefined => Undefined
  end.

#[global] Instance outcome_ret : MRet outcome := @Ret.
#[global] Instance outcome_mbind : MBind outcome := @outcome_bind.

(** ** [std::size_t] *)

Definition size_t_bits : Z := 64.
Definition size_t_of (z : Z) : Z := z mod 2 ^ size_t_bits.

(** [static constexpr std::size_t invalid_value = std::size_t(-1);] *)
Definition invalid_value : Z := size_t_of (-1).

(** [sizeof...(Types)] *)
Definition sizeof_pack {A} (Types : list A) : Z := Z.of_nat (length Types).

(** ** recursive_wrapper *)

(** Modelled from the spec: recursive_wrapper.hpp is included by variant.hpp
    but is not part of the sources.  Section 4.7 describes a box that owns
    exactly one heap-allocated payload of the declared type; [get] gives
    access to the owned payload, and the member type
    [recursive_wrapper<T>::type], which [unwrapper] returns, is taken to be
    the payload type [T].  The moved-from (empty) state is not modelled:
    nothing below moves out of a box. *)
Record recursive_wrapper (T : Type) : Type :=
  make_recursive_wrapper { payload : T }.
Arguments make_recursive_wrapper {T} _.
Arguments payload {T} _.

Definition rw_get {T} (obj : recursive_wrapper T) : T := payload obj.

(** ** Type codes *)

(** The types of the translation unit: names for the program's own types
    ([prim]), on which [std::is_same] is decidable, and the C++ values each
    of them has. *)
Class Alternatives : Type := {
  prim : Type;
  prim_eq_dec :: EqDecision prim;
  prim_den : prim -> Type }.

(** A type is one of the program's own or [recursive_wrapper<T>]. *)
Inductive ty `{Alternatives} : Type :=
  | Prim (p : prim)
  | Wrapper (t : ty).

#[global] Instance ty_eq_dec `{Alternatives} : EqDecision ty.
Proof. solve_decision. Defined.

Fixpoint den `{Alternatives} (T : ty) : Type :=
  match T with
  | Prim p => prim_den p
  | Wrapper U => recursive_wrapper (den U)
  end.

(** What the container asks of its alternatives: [operator==], [operator<],
    stream insertion (the stream is its text so far) and a copy constructor,
    which yields an equal object or throws ([Some what]). *)
Class Operators `{Alternatives} : Type := {
  op_eq : forall T : ty, den T -> den T -> bool;
  op_lt : forall T : ty, den T -> den T -> bool;
  op_shl : forall T : ty, string -> den T -> string;
  copy_throws : forall T : ty, den T -> option string }.

(** [std::is_same<T, U>::value] *)
Definition is_same `{Alternatives} (T U : ty) : bool := bool_decide (T = U).

(** ** The alternative registry (namespace detail) *)

(** [type_traits<T, Types...>::id] *)
Fixpoint type_traits_id `{Alternatives} (T : ty) (Types : list ty) : Z :=
  match Types with
  | First :: Rest =>
      if is_same T First then sizeof_pack Rest else type_traits_id T Rest
  | [] => invalid_value
  end.

(** [is_valid_type<T, Types...>::value] *)
Fixpoint is_valid_type `{Alternatives} (T : ty) (Types : list ty) : bool :=
  match Types with
  | First :: Rest => is_same T First || is_valid_type T Rest
  | [] => false
  end.

(** ** The container: [class variant<Types...>] *)

(** [data_type data]: raw storage with zero or one live object in it.  The
    storage itself carries no type; the model records the dynamic type of
    the live object so that a cast to another type is seen. *)
Definition data_type `{Alternatives} : Type := option {T : ty & den T}.

Record variant `{Alternatives} (Types : list ty) : Type := make_variant {
  type_index : Z;
  data : data_type }.
Arguments make_variant {_ Types} _ _.
Arguments type_index {_ Types} _.
Arguments data {_ Types} _.

(** [*reinterpret_cast<T*>(&data)] *)
Definition reinterpret_cast `{Alternatives} (T : ty) (d : data_type)
  : outcome (den T) :=
  match d with
  | Some (existT U x) =>
      match decide (U = T) with
      | left e => Ret (eq_rect U den x T e)
      | right _ => Undefined
      end
  | None => Undefined
  end.

(** [variant()] *)
Definition variant_default `{Alternatives} {Types : list ty} : variant Types :=
  make_variant invalid_value None.

(** [variant(T const& val)] and [variant(T&& val)], both enabled only when
    [is_valid_type<T, Types...>::value] ([None]: no such constructor).  Both
    are declared noexcept, so T's own constructor is taken not to throw
    here, and the stored object is the copy of [val]. *)
Definition variant_ctor `{Alternatives} {Types : list ty} (T : ty) (val : den T)
  : option (variant Types) :=
  if is_valid_type T Types
  then Some (make_variant (type_traits_id T Types) (Some (existT T val)))
  else None.

(** [variant_helper<Types...>::destroy(id, data)]: the storage afterwards. *)
Fixpoint helper_destroy `{Alternatives} (Types : list ty) (id : Z)
  (d : data_type) : outcome data_type :=
  match Types with
  | T :: Rest =>
      if id =? sizeof_pack Rest
      then _ ← reinterpret_cast T d; Ret None
      else helper_destroy Rest id d
  | [] => Ret d
  end.

(** [variant_helper<Types...>::copy(old_id, old_value, new_value)]: the
    storage at [new_value] afterwards. *)
Fixpoint helper_copy `{Operators} (Types : list ty) (old_id : Z)
  (old_value new_value : data_type) : outcome data_type :=
  match Types with
  | T :: Rest =>
      if old_id =? sizeof_pack Rest
      then x ← reinterpret_cast T old_value;
           match copy_throws T x with
           | Some what => Throw what
           | None => Ret (Some (existT T x))
           end
      else helper_copy Rest old_id old_value new_value
  | [] => Ret new_value
  end.

(** [variant(variant<Types...> const& old)] *)
Definition variant_copy `{Operators} {Types : list ty} (old : variant Types)
  : outcome (variant Types) :=
  d ← helper_copy Types (type_index old) (data old) None;
  Ret (make_variant (type_index old) d).

(** [is<T>()] ([is] is reserved) *)
Definition is_ `{Alternatives} {Types : list ty} (T : ty) (v : variant Types)
  : bool :=
  type_index v =? type_traits_id T Types.

(** [valid()] *)
Definition valid `{Alternatives} {Types : list ty} (v : variant Types) : bool :=
  negb (type_index v =? invalid_value).

(** [get<T>()] (both overloads) *)
Definition get `{Alternatives} {Types : list ty} (T : ty) (v : variant Types)
  : outcome (den T) :=
  if type_index v =? type_traits_id T Types
  then reinterpret_cast T (data v)
  else Throw "in get()".

(** [get_type_index()] *)
Definition get_type_index `{Alternatives} {Types : list ty} (v : variant Types)
  : Z :=
  type_index v.

(** ** Objects and references *)

(** The variant objects of a program, by address. *)
Abbreviation store Types := (gmap nat (variant Types)).

(** A call of a const member function on the object at [this]. *)
Definition call_const `{Alternatives} {Types : list ty} {A : Type}
  (method : variant Types -> outcome A) (this : nat) (s : store Types)
  : outcome A * store Types :=
  match s !! this with
  | Some v => (method v, s)
  | None => (Undefined, s)
  end.

(** Whether an object is relocatable: whether, after its bytes have been
    moved to another address, they are the same object there.  Built-in
    types are; an object that points into itself (a [std::string] that keeps
    a short text inside the object) is not. *)
Class Relocation `{Alternatives} : Type := {
  relocatable : forall T : ty, den T -> bool }.

(** The storage bytes of one container moved into another container: a
    live object is live at the new address only if it is relocatable, no
    constructor having run there. *)
Definition relocate `{Relocation} (d : data_type) : data_type :=
  match d with
  | Some (existT T x) => if relocatable T x then Some (existT T x) else None
  | None => None
  end.

(** [swap(first, second)]: [std::swap] on [type_index] and on [data], which
    is plain storage: the discriminants and the storage bytes are exchanged
    and no move constructor runs.  For one and the same object the bytes
    stay where they are. *)
Definition swap `{Relocation} {Types : list ty} (first second : nat)
  (s : store Types) : outcome unit * store Types :=
  match s !! first, s !! second with
  | Some a, Some b =>
      if decide (first = second) then (Ret (), s)
      else
        (Ret (),
         <[second := make_variant (type_index a) (relocate (data a))]>
           (<[first := make_variant (type_index b) (relocate (data b))]> s))
  | _, _ => (Undefined, s)
  end.

(** [~variant()]; the object's storage is released afterwards. *)
Definition destruct_at `{Alternatives} {Types : list ty} (this : nat)
  (s : store Types) : outcome unit * store Types :=
  match s !! this with
  | Some v =>
      match helper_destroy Types (type_index v) (data v) with
      | Ret _ => (Ret (), delete this s)
      | Throw what => (Throw what, s)
      | Undefined => (Undefined, s)
      end
  | None => (Undefined, s)
  end.

(** [operator=(variant<Types...> other)] called as [*this = src] with an
    lvalue [src]: the parameter [other] is a new object, copy-constructed
    from [src] before the body runs, and destroyed when the call returns. *)
Definition assign `{Operators} `{!Relocation} {Types : list ty}
  (this src : nat)
  (s : store Types) : outcome unit * store Types :=
  match s !! src with
  | Some old =>
      match variant_copy old with
      | Ret tmp =>
          let other := fresh (dom s) in
          let s1 := <[other := tmp]> s in
          match swap this other s1 with
          | (Ret _, s2) => destruct_at other s2
          | (Throw what, s2) => (Throw what, s2)
          | (Undefined, s2) => (Undefined, s2)
          end
      | Throw what => (Throw what, s)
      | Undefined => (Undefined, s)
      end
  | None => (Undefined, s)
  end.

(** ** Visitation (namespace detail) *)

(** [unwrapper<T>] and its specialisation [unwrapper<recursive_wrapper<T>>]:
    the static type of the result, and the call operator. *)
Definition unwrap_ty `{Alternatives} (T : ty) : ty :=
  match T with
  | Wrapper U => U
  | Prim p => Prim p
  end.

Definition unwrapper `{Alternatives} (T : ty) : den T -> den (unwrap_ty T) :=
  match T with
  | Wrapper U => fun obj => rw_get obj
  | Prim p => fun obj => obj
  end.

(** A visitor [F] with [F::result_type = R]: its call operator, at every
    static argument type. *)
Definition visitor `{Alternatives} (R : Type) : Type :=
  forall T : ty, den T -> outcome R.

Definition binary_visitor `{Alternatives} (R : Type) : Type :=
  forall T0 : ty, den T0 -> forall T1 : ty, den T1 -> outcome R.

(** [dispatcher<F, V, Types...>::apply(v, f)]; [V] is [variant<All...>]. *)
Fixpoint dispatcher_apply `{Alternatives} {All : list ty} {R : Type}
  (Types : list ty) (v : variant All) (f : visitor R) : outcome R :=
  match Types with
  | T :: Rest =>
      if get_type_index v =? sizeof_pack Rest
      then x ← get T v; f (unwrap_ty T) (unwrapper T x)
      else dispatcher_apply Rest v f
  | [] => Throw "unary dispatch: FAIL"
  end.

(** [binary_dispatcher_rhs<F, V, T0, Types...>::apply(lhs, rhs, f)].
    The two [get] calls are arguments of one call; they are taken left to
    right (both throw the same error). *)
Fixpoint binary_dispatcher_rhs_apply `{Alternatives} {All : list ty} {R : Type}
  (T0 : ty) (Types : list ty) (lhs rhs : variant All) (f : binary_visitor R)
  : outcome R :=
  match Types with
  | T1 :: Rest =>
      if get_type_index rhs =? sizeof_pack Rest
      then x ← get T0 lhs; y ← get T1 rhs;
           f (unwrap_ty T0) (unwrapper T0 x) (unwrap_ty T1) (unwrapper T1 y)
      else binary_dispatcher_rhs_apply T0 Rest lhs rhs f
  | [] => Throw "binary dispatch: FAIL"
  end.

(** [binary_dispatcher_lhs<F, V, T0, Types...>::apply(lhs, rhs, f)] *)
Fixpoint binary_dispatcher_lhs_apply `{Alternatives} {All : list ty} {R : Type}
  (T0 : ty) (Types : list ty) (lhs rhs : variant All) (f : binary_visitor R)
  : outcome R :=
  match Types with
  | T1 :: Rest =>
      if get_type_index lhs =? sizeof_pack Rest
      then x ← get T1 lhs; y ← get T0 rhs; f T1 x T0 y
      else binary_dispatcher_lhs_apply T0 Rest lhs rhs f
  | [] => Throw "binary dispatch: FAIL"
  end.

(** [binary_dispatcher<F, V, Types...>::apply(v0, v1, f)] *)
Fixpoint binary_dispatcher_apply `{Alternatives} {All : list ty} {R : Type}
  (Types : list ty) (v0 v1 : variant All) (f : binary_visitor R) : outcome R :=
  match Types with
  | T :: Rest =>
      if get_type_index v0 =? sizeof_pack Rest
      then
        if get_type_index v0 =? get_type_index v1
        then x ← get T v0; y ← get T v1; f T x T y
        else binary_dispatcher_rhs_apply T Rest v0 v1 f
      else if get_type_index v1 =? sizeof_pack Rest
      then binary_dispatcher_lhs_apply T Rest v0 v1 f
      else binary_dispatcher_apply Rest v0 v1 f
  | [] => Throw "binary dispatch: FAIL"
  end.

(** [variant::visit(v, f)] and [variant::binary_visit(v0, v1, f)] *)
Definition visit `{Alternatives} {Types : list ty} {R : Type}
  (v : variant Types) (f : visitor R) : outcome R :=
  dispatcher_apply Types v f.

Definition binary_visit `{Alternatives} {Types : list ty} {R : Type}
  (v0 v1 : variant Types) (f : binary_visitor R) : outcome R :=
  binary_dispatcher_apply Types v0 v1 f.

(** [apply_visitor(f, v)] and [apply_visitor(f, v0, v1)] *)
Definition apply_visitor `{Alternatives} {Types : list ty} {R : Type}
  (f : visitor R) (v : variant Types) : outcome R :=
  visit v f.

Definition apply_visitor2 `{Alternatives} {Types : list ty} {R : Type}
  (f : binary_visitor R) (v0 v1 : variant Types) : outcome R :=
  binary_visit v0 v1 f.

(** ** Comparison and formatting *)

(** [equal_comp] and [less_comp] *)
Definition equal_comp `{Operators} (T : ty) (lhs rhs : den T) : bool :=
  op_eq T lhs rhs.

Definition less_comp `{Operators} (T : ty) (lhs rhs : den T) : bool :=
  op_lt T lhs rhs.

(** [comparer<Variant, Comp>]: constructed on [lhs], called on the content
    of the right-hand side. *)
Definition comparer `{Alternatives} {Types : list ty}
  (Comp : forall T : ty, den T -> den T -> bool) (lhs_ : variant Types)
  : visitor bool :=
  fun T rhs_content =>
    lhs_content ← get T lhs_; Ret (Comp T lhs_content rhs_content).

(** [printer<Out>]: [out_ << operand]; the call yields the stream's text. *)
Definition printer `{Operators} (out_ : string) : visitor string :=
  fun T operand => Ret (op_shl T out_ operand).

(** [operator==] *)
Definition variant_eq `{Operators} {Types : list ty} (this rhs : variant Types)
  : outcome bool :=
  if negb (get_type_index this =? get_type_index rhs)
  then Ret false
  else visit rhs (comparer equal_comp this).

(** [operator<] *)
Definition variant_lt `{Operators} {Types : list ty} (this rhs : variant Types)
  : outcome bool :=
  if negb (get_type_index this =? get_type_index rhs)
  then Ret (get_type_index this <? get_type_index rhs)
  else visit rhs (comparer less_comp this).

(** [operator<<(out, rhs)] *)
Definition variant_shl `{Operators} {Types : list ty} (out : string)
  (rhs : variant Types) : outcome string :=
  apply_visitor (printer out) rhs.

(** ** Well-formed containers *)

(** The container holds a live [x] of the declared alternative [T]. *)
Definition holds `{Alternatives} {Types : list ty} (v : variant Types)
  (T : ty) (x : den T) : Prop :=
  T ∈ Types /\ type_index v = type_traits_id T Types
  /\ data v = Some (existT T x).

(** The container is as default construction leaves it. *)
Definition is_empty `{Alternatives} {Types : list ty} (v : variant Types) : Prop :=
  type_index v = invalid_value /\ data v = None.

(** Invariants 1 and 2 of the data model. *)
Definition well_formed `{Alternatives} {Types : list ty} (v : variant Types)
  : Prop :=
  is_empty v \/ exists T x, holds v T x.

(** The pack fits the discriminant, so that no id reaches [invalid_value].
    [sizeof...(Types)] is itself a [std::size_t]: a pack of a program has at
    most [std::size_t(-1)] types. *)
Definition fits_size_t `{Alternatives} (Types : list ty) : Prop :=
  sizeof_pack Types <= invalid_value.

(** The value the container holds, if any, is relocatable. *)
Definition relocatable_held `{Relocation} {Types : list ty} (v : variant Types)
  : Prop :=
  relocate (data v) = data v.

(** Whether a type is an indirection box. *)
Definition is_wrapper `{Alternatives} (T : ty) : bool :=
  match T with
  | Wrapper _ => true
  | Prim _ => false
  end.

(** A visitor that reports the call it receives: the static types and the
    arguments. *)
Definition report `{Alternatives} : visitor {T : ty & den T} :=
  fun T x => Ret (existT T x).

Definition report2 `{Alternatives}
  : binary_visitor ({T : ty & den T} * {T : ty & den T}) :=
  fun T0 x T1 y => Ret (existT T0 x, existT T1 y).

(** ** Storage size *)

(** [static_max<arg1, others...>::value] *)
Fixpoint static_max (arg1 : Z) (others : list Z) : Z :=
  match others with
  | [] => arg1
  | arg2 :: others' =>
      if arg1 >=? arg2 then static_max arg1 others' else static_max arg2 others'
  end.

(** [sizeof(T)] and [alignof(T)] of the types of the translation unit. *)
Class Layout `{Alternatives} : Type := {
  size_of : ty -> Z;
  align_of : ty -> Z }.

(** [data_size] and [data_align] of [variant<Types...>]; [static_max] has no
    instance without arguments, so the empty pack has neither. *)
Definition data_size `{Layout} (Types : list ty) : option Z :=
  match size_of <$> Types with
  | [] => None
  | arg1 :: others => Some (static_max arg1 others)
  end.

Definition data_align `{Layout} (Types : list ty) : option Z :=
  match align_of <$> Types with
  | [] => None
  | arg1 :: others => Some (static_max arg1 others)
  end.

(** ** Typed set *)

(** Whether an object of type [T] fits the storage of [variant<Types...>]. *)
Definition fits_storage `{Layout} (T : ty) (Types : list ty) : bool :=
  match data_size Types, data_align Types with
  | Some size, Some align => (size_of T <=? size) && (align_of T <=? align)
  | _, _ => false
  end.

(** [set<T>(args...)] on [*this]: the call's result and the object
    afterwards.  [ctor] is what [T(std::forward<Args>(args)...)] does: the
    constructed value, or the error it throws; the arguments are taken not
    to refer to the container's own storage.  [set] has no [enable_if] and
    no check of the size: an object that does not fit is constructed past
    the end of the storage. *)
Definition set `{Layout} {Types : list ty} (T : ty)
  (ctor : outcome (den T)) (v : variant Types)
  : outcome unit * variant Types :=
  match helper_destroy Types (type_index v) (data v) with
  | Ret d =>
      match ctor with
      | Ret x =>
          if fits_storage T Types
          then (Ret (),
                make_variant (type_traits_id T Types) (Some (existT T x)))
          else (Undefined, make_variant (type_index v) d)
      | Throw what => (Throw what, make_variant (type_index v) d)
      | Undefined => (Undefined, make_variant (type_index v) d)
      end
  | Throw what => (Throw what, v)
  | Undefined => (Undefined, v)
  end.

(** ** The example scenario: alternatives Integer and Text *)

Module Example.

Inductive name : Set := Integer | Text.

#[export] Instance name_eq_dec : EqDecision name.
Proof. solve_decision. Defined.

#[export] Instance alternatives : Alternatives := {|
  prim := name;
  prim_den := fun n => match n with Integer => Z | Text => string end |}.

(** The operators of the example's types.  A box has no comparison or
    formatting of its own in the spec; it is given its payload's here. *)
Fixpoint eq_val (T : ty) : den T -> den T -> bool :=
  match T return den T -> den T -> bool with
  | Prim Integer => Z.eqb
  | Prim Text => String.eqb
  | Wrapper U => fun x y => eq_val U (rw_get x) (rw_get y)
  end.

Fixpoint lt_val (T : ty) : den T -> den T -> bool :=
  match T return den T -> den T -> bool with
  | Prim Integer => Z.ltb
  | Prim Text => String.ltb
  | Wrapper U => fun x y => lt_val U (rw_get x) (rw_get y)
  end.

Fixpoint shl_val (T : ty) (out : string) : den T -> string :=
  match T return den T -> string with
  | Prim Integer => fun x => out +:+ pretty x
  | Prim Text => fun x => out +:+ x
  | Wrapper U => fun x => shl_val U out (rw_get x)
  end.

#[export] Instance operators : Operators := {|
  op_eq := eq_val;
  op_lt := lt_val;
  op_shl := shl_val;
  copy_throws := fun _ _ => None |}.

(** The same operators where copying a text runs out of memory. *)
Definition operators_nomem : Operators := {|
  op_eq := eq_val;
  op_lt := lt_val;
  op_shl := shl_val;
  copy_throws := fun T _ =>
    if is_same T (Prim Text) then Some "std::bad_alloc" else None |}.

(** [variant<Integer, Text>], [a = Integer(5)] and [b = Text("hi")]. *)
Definition Types : list ty := [Prim Integer; Prim Text].

Definition a : variant Types := make_variant 1 (Some (existT (Prim Integer) 5)).
Definition b : variant Types := make_variant 0 (Some (existT (Prim Text) "hi")).

(** [variant<recursive_wrapper<Integer>, Text>] with a boxed 5, a boxed 7
    and the text "hi". *)
Definition BoxTypes : list ty := [Wrapper (Prim Integer); Prim Text].

Definition box5 : variant BoxTypes :=
  make_variant 1
    (Some (existT (Wrapper (Prim Integer)) (make_recursive_wrapper 5))).
Definition box7 : variant BoxTypes :=
  make_variant 1
    (Some (existT (Wrapper (Prim Integer)) (make_recursive_wrapper 7))).
Definition hi : variant BoxTypes :=
  make_variant 0 (Some (existT (Prim Text) "hi")).

(** [variant<Text, recursive_wrapper<Integer>>]: the box declared last. *)
Definition TextBox : list ty := [Prim Text; Wrapper (Prim Integer)].

Definition tb_hi : variant TextBox :=
  make_variant 1 (Some (existT (Prim Text) "hi")).
Definition tb_box5 : variant TextBox :=
  make_variant 0
    (Some (existT (Wrapper (Prim Integer)) (make_recursive_wrapper 5))).

(** Sizes and alignments as on an LP64 platform with a 32-byte string. *)
#[export] Instance layout : Layout := {|
  size_of := fun T =>
    match T with Prim Integer => 4 | Prim Text => 32 | Wrapper _ => 8 end;
  align_of := fun T =>
    match T with Prim Integer => 4 | Prim Text => 8 | Wrapper _ => 8 end |}.

(** Integers and boxes (a pointer to the heap) are relocatable; a text is
    when it is longer than the 15 characters kept inside the object. *)
#[export] Instance relocation : Relocation := {|
  relocatable := fun T =>
    match T return den T -> bool with
    | Prim Integer => fun _ => true
    | Prim Text => fun x => (15 <? String.length x)%nat
    | Wrapper _ => fun _ => true
    end |}.

(** An empty container and two more values of [variant<Integer, Text>]. *)
Definition e : variant Types := variant_default.
Definition c : variant Types := make_variant 1 (Some (existT (Prim Integer) 9)).
Definition d : variant Types := make_variant 1 (Some (existT (Prim Integer) 12)).

(** Two objects with integers: [a] at address 0 and [c] at address 1. *)
Definition integers : store Types := <[1%nat := c]> (<[0%nat := a]> ∅).


(** Two objects: [a] at address 0 and [b] at address 1. *)
Definition objects : store Types := <[1%nat := b]> (<[0%nat := a]> ∅).

End Example.

(** * Properties *)

(** ** The registry *)

Section Registry.
Context `{Alternatives}.
Implicit Types (T U First : ty) (Types Rest : list ty).

Lemma invalid_value_eq : invalid_value = 18446744073709551615.
Proof. reflexivity. Qed.

Lemma is_same_true T U : is_same T U = true <-> T = U.
Proof. unfold is_same. apply bool_decide_eq_true. Qed.

Lemma is_same_refl T : is_same T T = true.
Proof. by apply is_same_true. Qed.

Lemma is_same_neq T U : T <> U -> is_same T U = false.
Proof. intros. unfold is_same. by apply bool_decide_eq_false. Qed.

Lemma is_valid_type_elem_of T Types :
  is_valid_type T Types = true <-> T ∈ Types.
Proof.
  induction Types as [|First Rest IH]; simpl.
  - split; [discriminate | by intros ?%elem_of_nil].
  - rewrite orb_true_iff, IH, is_same_true, elem_of_cons. tauto.
Qed.

Lemma is_valid_type_not_elem_of T Types :
  T ∉ Types -> is_valid_type T Types = false.
Proof.
  intros Hn. apply not_true_is_false. by rewrite is_valid_type_elem_of.
Qed.

Lemma type_traits_id_not_elem_of T Types :
  T ∉ Types -> type_traits_id T Types = invalid_value.
Proof.
  induction Types as [|First Rest IH]; simpl; [done|].
  intros Hn. apply not_elem_of_cons in Hn as [Hne Hn].
  rewrite is_same_neq by done. auto.
Qed.

Lemma type_traits_id_range T Types :
  T ∈ Types -> 0 <= type_traits_id T Types < sizeof_pack Types.
Proof.
  unfold sizeof_pack.
  induction Types as [|First Rest IH]; simpl length.
  - by intros ?%elem_of_nil.
  - intros Hin. simpl. destruct (is_same T First) eqn:E.
    + unfold sizeof_pack. lia.
    + apply elem_of_cons in Hin as [->|Hin].
      * by rewrite is_same_refl in E.
      * specialize (IH Hin). lia.
Qed.

(** The id counts the types declared after the first occurrence. *)
Lemma type_traits_id_lookup Types : forall (i : nat) T,
  NoDup Types -> Types !! i = Some T ->
  type_traits_id T Types = sizeof_pack Types - 1 - Z.of_nat i.
Proof.
  unfold sizeof_pack.
  induction Types as [|First Rest IH]; intros i T Hnd Hi; [done|].
  apply NoDup_cons in Hnd as [Hfresh Hnd]. simpl.
  destruct i as [|i]; simpl in Hi.
  - injection Hi as ->. rewrite is_same_refl. unfold sizeof_pack. lia.
  - rewrite is_same_neq.
    + rewrite (IH i T Hnd Hi). lia.
    + intros ->. apply Hfresh. by eapply list_elem_of_lookup_2.
Qed.

Lemma type_traits_id_inj T U Types :
  T ∈ Types -> U ∈ Types ->
  type_traits_id T Types = type_traits_id U Types -> T = U.
Proof.
  induction Types as [|First Rest IH]; [by intros ?%elem_of_nil|].
  intros HT HU. simpl.
  destruct (is_same T First) eqn:ET, (is_same U First) eqn:EU.
  - apply is_same_true in ET, EU. congruence.
  - intros Heq. apply elem_of_cons in HU as [->|HU];
      [by rewrite is_same_refl in EU|].
    pose proof (type_traits_id_range U Rest HU). lia.
  - intros Heq. apply elem_of_cons in HT as [->|HT];
      [by rewrite is_same_refl in ET|].
    pose proof (type_traits_id_range T Rest HT). lia.
  - apply elem_of_cons in HT as [->|HT]; [by rewrite is_same_refl in ET|].
    apply elem_of_cons in HU as [->|HU]; [by rewrite is_same_refl in EU|].
    auto.
Qed.

Lemma type_traits_id_valid T Types :
  fits_size_t Types -> T ∈ Types -> type_traits_id T Types <> invalid_value.
Proof.
  unfold fits_size_t. intros Hfit Hin.
  pose proof (type_traits_id_range T Types Hin). lia.
Qed.

(** C3: in a pack of N distinct types the id of an alternative is its
    reverse position: the type at position i has id N-1-i, so the first
    declared has N-1 and the last declared has 0; the ids of declared types
    lie in [0, N-1] and are pairwise distinct; a type outside the pack gets
    [invalid_value] and is rejected by [is_valid_type]. *)
Theorem type_traits_reverse_position Types :
  NoDup Types ->
  (forall (i : nat) T, Types !! i = Some T ->
     type_traits_id T Types = sizeof_pack Types - 1 - Z.of_nat i)
  /\ (forall T, head Types = Some T ->
        type_traits_id T Types = sizeof_pack Types - 1)
  /\ (forall T, last Types = Some T -> type_traits_id T Types = 0)
  /\ (forall T, T ∈ Types ->
        0 <= type_traits_id T Types <= sizeof_pack Types - 1
        /\ is_valid_type T Types = true)
  /\ (forall T U, T ∈ Types -> U ∈ Types -> T <> U ->
        type_traits_id T Types <> type_traits_id U Types)
  /\ (forall T, T ∉ Types ->
        type_traits_id T Types = invalid_value
        /\ is_valid_type T Types = false).
Proof.
  intros Hnd. repeat split.
  - intros i T Hi. by apply type_traits_id_lookup.
  - intros T Hh. rewrite head_lookup in Hh.
    rewrite (type_traits_id_lookup Types 0 T Hnd Hh). lia.
  - intros T Hl. rewrite last_lookup in Hl.
    rewrite (type_traits_id_lookup Types _ T Hnd Hl).
    assert (length Types <> 0%nat).
    { destruct Types; [discriminate|simpl; lia]. }
    unfold sizeof_pack. lia.
  - pose proof (type_traits_id_range T Types ltac:(done)). lia.
  - pose proof (type_traits_id_range T Types ltac:(done)). lia.
  - by apply is_valid_type_elem_of.
  - intros T U HT HU Hne Heq. apply Hne. by eapply type_traits_id_inj.
  - by apply type_traits_id_not_elem_of.
  - by apply is_valid_type_not_elem_of.
Qed.

End Registry.

(** ** The container *)

Section Container.
Context `{Alternatives}.
Implicit Types (T U : ty) (Types : list ty).

Lemma reinterpret_cast_live T (x : den T) :
  reinterpret_cast T (Some (existT T x)) = Ret x.
Proof.
  unfold reinterpret_cast. destruct (decide (T = T)) as [e|]; [|done].
  by rewrite (proof_irrel e eq_refl).
Qed.

Lemma reinterpret_cast_other T U (x : den U) :
  U <> T -> reinterpret_cast T (Some (existT U x)) = Undefined.
Proof.
  intros Hne. unfold reinterpret_cast. by destruct (decide (U = T)).
Qed.

Lemma holds_inj {Types} (v : variant Types) T U (x : den T) (y : den U) :
  holds v T x -> holds v U y -> existT T x = existT U y.
Proof. intros (_ & _ & Hx) (_ & _ & Hy). congruence. Qed.

Lemma holds_get {Types} (v : variant Types) T (x : den T) :
  holds v T x -> get T v = Ret x.
Proof.
  intros (_ & Hid & Hd). unfold get.
  rewrite Hid, Z.eqb_refl, Hd. apply reinterpret_cast_live.
Qed.

Lemma holds_index_declared {Types} (v : variant Types) T U (x : den T) :
  holds v T x -> U ∈ Types -> U <> T ->
  type_index v <> type_traits_id U Types.
Proof.
  intros (HT & Hid & _) HU Hne e. apply Hne.
  eapply type_traits_id_inj; [done..|congruence].
Qed.

Lemma holds_index_other {Types} (v : variant Types) T U (x : den T) :
  fits_size_t Types -> holds v T x -> U <> T ->
  type_index v <> type_traits_id U Types.
Proof.
  intros Hfit Hv Hne. destruct (decide (U ∈ Types)) as [HU|HU].
  - by eapply holds_index_declared.
  - destruct Hv as (HT & Hid & _).
    rewrite (type_traits_id_not_elem_of U Types HU), Hid.
    by apply type_traits_id_valid.
Qed.

Lemma holds_get_other {Types} (v : variant Types) T U (x : den T) :
  fits_size_t Types -> holds v T x -> U <> T -> get U v = Throw "in get()".
Proof.
  intros Hfit Hv Hne. unfold get.
  pose proof (holds_index_other v T U x Hfit Hv Hne).
  by destruct (Z.eqb_spec (type_index v) (type_traits_id U Types)).
Qed.

Lemma holds_index_valid {Types} (v : variant Types) T (x : den T) :
  fits_size_t Types -> holds v T x -> type_index v <> invalid_value.
Proof.
  intros Hfit (HT & Hid & _). rewrite Hid. by apply type_traits_id_valid.
Qed.

Lemma variant_ctor_holds {Types} T (val : den T) :
  T ∈ Types ->
  exists v : variant Types, variant_ctor T val = Some v /\ holds v T val.
Proof.
  intros HT. unfold variant_ctor.
  rewrite (proj2 (is_valid_type_elem_of T Types) HT).
  eexists. split; [done|]. by repeat split.
Qed.

Lemma variant_default_is_empty {Types} : is_empty (@variant_default _ Types).
Proof. by split. Qed.

(** C2: a container constructed from a value [val] of a declared
    alternative T answers true to is<T>(), returns [val] from get<T>(),
    and answers false to is<U>() for every other declared alternative U. *)
Theorem variant_ctor_is_get {Types} T (val : den T) :
  T ∈ Types ->
  exists v : variant Types,
    variant_ctor T val = Some v
    /\ is_ T v = true
    /\ get T v = Ret val
    /\ (forall U, U ∈ Types -> U <> T -> is_ U v = false).
Proof.
  intros HT. destruct (variant_ctor_holds (Types:=Types) T val HT) as (v & Hc & Hv).
  exists v. repeat split; [done| | |].
  - unfold is_. destruct Hv as (_ & -> & _). apply Z.eqb_refl.
  - by apply holds_get.
  - intros U HU Hne. unfold is_. apply Z.eqb_neq.
    by eapply holds_index_declared.
Qed.

(** C10: a default-constructed container is not valid(); for every
    declared alternative T, is<T>() is false and get<T>() throws the
    type-mismatch error. *)
Theorem variant_default_observers {Types} :
  fits_size_t Types ->
  valid (@variant_default _ Types) = false
  /\ (forall T, T ∈ Types ->
        is_ T (@variant_default _ Types) = false
        /\ get T (@variant_default _ Types) = Throw "in get()").
Proof.
  intros Hfit. split; [done|]. intros T HT.
  pose proof (type_traits_id_valid T Types Hfit HT) as Hne.
  unfold is_, get, variant_default. cbn [type_index].
  by destruct (Z.eqb_spec invalid_value (type_traits_id T Types)).
Qed.

(** C4: on a well-formed container and for a declared alternative T,
    get<T>() returns the live stored value exactly when the discriminant is
    the id of T, and otherwise throws the type-mismatch error; called
    through a reference, it leaves the object (discriminant and storage) as
    it was in either case and hands its result or error to the caller. *)
Theorem get_iff_type_index {Types} (v : variant Types) T :
  fits_size_t Types -> well_formed v -> T ∈ Types ->
  (type_index v = type_traits_id T Types ->
     exists x, data v = Some (existT T x) /\ get T v = Ret x)
  /\ (type_index v <> type_traits_id T Types -> get T v = Throw "in get()")
  /\ ((exists x, get T v = Ret x) <-> type_index v = type_traits_id T Types)
  /\ (forall (s : store Types) (this : nat), s !! this = Some v ->
        call_const (get T) this s = (get T v, s)).
Proof.
  intros Hfit Hwf HT.
  assert (type_index v = type_traits_id T Types ->
          exists x, data v = Some (existT T x) /\ get T v = Ret x) as Hyes.
  { intros Hid. destruct Hwf as [[He _]|(U & x & Hv)].
    - destruct (type_traits_id_valid T Types Hfit HT). congruence.
    - destruct (decide (T = U)) as [->|Hne].
      + exists x. split; [apply Hv|by apply holds_get].
      + destruct (holds_index_declared v U T x Hv HT Hne Hid). }
  assert (type_index v <> type_traits_id T Types ->
          get T v = Throw "in get()") as Hno.
  { intros Hid. unfold get.
    by destruct (Z.eqb_spec (type_index v) (type_traits_id T Types)). }
  repeat split; [done..| | |].
  - intros [x Hx].
    destruct (decide (type_index v = type_traits_id T Types)) as [|Hid]; [done|].
    rewrite (Hno Hid) in Hx. discriminate.
  - intros Hid. destruct (Hyes Hid) as (x & _ & Hx). by exists x.
  - intros s this Hs. unfold call_const. by rewrite Hs.
Qed.

End Container.

(** ** Visitation *)

Section Visitation.
Context `{Alternatives}.
Implicit Types (T U X Y : ty) (Types All : list ty).

Lemma unwrapper_plain {R} (f : visitor R) T (x : den T) :
  is_wrapper T = false -> f (unwrap_ty T) (unwrapper T x) = f T x.
Proof. by destruct T. Qed.

Lemma unwrapper_plain2 {R} (f : binary_visitor R) X Y (x : den X) (y : den Y) :
  is_wrapper X = false -> is_wrapper Y = false ->
  f (unwrap_ty X) (unwrapper X x) (unwrap_ty Y) (unwrapper Y y) = f X x Y y.
Proof. by destruct X, Y. Qed.

Lemma unwrap_ty_wrapper T : is_wrapper T = true -> unwrap_ty T <> T.
Proof.
  destruct T as [|U]; [done|]. intros _. simpl.
  induction U as [|U IH]; [done|]. intros [= e]. auto.
Qed.

(** The chain of [dispatcher] stops at the type whose id is the index. *)
Lemma dispatcher_apply_id {All R} (v : variant All) (f : visitor R) T :
  forall Types, T ∈ Types -> type_index v = type_traits_id T Types ->
  dispatcher_apply Types v f = (x ← get T v; f (unwrap_ty T) (unwrapper T x)).
Proof.
  induction Types as [|First Rest IH]; [by intros ?%elem_of_nil|].
  intros HT Hid. simpl in *. unfold get_type_index.
  destruct (is_same T First) eqn:E.
  - apply is_same_true in E as <-. by rewrite Hid, Z.eqb_refl.
  - apply elem_of_cons in HT as [->|HT]; [by rewrite is_same_refl in E|].
    pose proof (type_traits_id_range T Rest HT).
    destruct (Z.eqb_spec (type_index v) (sizeof_pack Rest)); [lia|]. auto.
Qed.

(** With an index that is the id of no position, the chain runs out. *)
Lemma dispatcher_apply_no_match {All R} (v : variant All) (f : visitor R) :
  forall Types, ~ (0 <= type_index v < sizeof_pack Types) ->
  dispatcher_apply Types v f = Throw "unary dispatch: FAIL".
Proof.
  unfold sizeof_pack.
  induction Types as [|First Rest IH]; [done|].
  intros Hr. simpl. unfold get_type_index, sizeof_pack. simpl length in Hr.
  destruct (Z.eqb_spec (type_index v) (Z.of_nat (length Rest))); [lia|].
  apply IH. lia.
Qed.

Lemma visit_holds {Types R} (v : variant Types) (f : visitor R) T (x : den T) :
  holds v T x -> visit v f = f (unwrap_ty T) (unwrapper T x).
Proof.
  intros Hv. unfold visit.
  rewrite (dispatcher_apply_id v f T Types); [|apply Hv..].
  by rewrite (holds_get v T x Hv).
Qed.

Lemma visit_empty {Types R} (v : variant Types) (f : visitor R) :
  fits_size_t Types -> type_index v = invalid_value ->
  visit v f = Throw "unary dispatch: FAIL".
Proof.
  unfold fits_size_t. intros Hfit He.
  apply dispatcher_apply_no_match. rewrite He. lia.
Qed.

Lemma binary_dispatcher_rhs_apply_id {All R} (lhs rhs : variant All)
  (f : binary_visitor R) T0 Y :
  forall Types, Y ∈ Types -> type_index rhs = type_traits_id Y Types ->
  binary_dispatcher_rhs_apply T0 Types lhs rhs f
  = (x ← get T0 lhs; y ← get Y rhs;
     f (unwrap_ty T0) (unwrapper T0 x) (unwrap_ty Y) (unwrapper Y y)).
Proof.
  induction Types as [|T1 Rest IH]; [by intros ?%elem_of_nil|].
  intros HY Hid. simpl in *. unfold get_type_index.
  destruct (is_same Y T1) eqn:E.
  - apply is_same_true in E as <-. by rewrite Hid, Z.eqb_refl.
  - apply elem_of_cons in HY as [->|HY]; [by rewrite is_same_refl in E|].
    pose proof (type_traits_id_range Y Rest HY).
    destruct (Z.eqb_spec (type_index rhs) (sizeof_pack Rest)); [lia|]. auto.
Qed.

Lemma binary_dispatcher_lhs_apply_id {All R} (lhs rhs : variant All)
  (f : binary_visitor R) T0 X :
  forall Types, X ∈ Types -> type_index lhs = type_traits_id X Types ->
  binary_dispatcher_lhs_apply T0 Types lhs rhs f
  = (x ← get X lhs; y ← get T0 rhs; f X x T0 y).
Proof.
  induction Types as [|T1 Rest IH]; [by intros ?%elem_of_nil|].
  intros HX Hid. simpl in *. unfold get_type_index.
  destruct (is_same X T1) eqn:E.
  - apply is_same_true in E as <-. by rewrite Hid, Z.eqb_refl.
  - apply elem_of_cons in HX as [->|HX]; [by rewrite is_same_refl in E|].
    pose proof (type_traits_id_range X Rest HX).
    destruct (Z.eqb_spec (type_index lhs) (sizeof_pack Rest)); [lia|]. auto.
Qed.

(** What [binary_dispatcher] does when both indices are ids: the arguments
    pass through [unwrapper] only when the left type is found first and the
    right type is another one (the [binary_dispatcher_rhs] branch). *)
Lemma binary_dispatcher_apply_id {All R} (v0 v1 : variant All)
  (f : binary_visitor R) X Y :
  forall Types, X ∈ Types -> Y ∈ Types ->
  type_index v0 = type_traits_id X Types ->
  type_index v1 = type_traits_id Y Types ->
  binary_dispatcher_apply Types v0 v1 f
  = if type_traits_id Y Types <? type_traits_id X Types
    then x ← get X v0; y ← get Y v1;
         f (unwrap_ty X) (unwrapper X x) (unwrap_ty Y) (unwrapper Y y)
    else x ← get X v0; y ← get Y v1; f X x Y y.
Proof.
  induction Types as [|T Rest IH]; [by intros ?%elem_of_nil|].
  intros HX HY H0 H1. simpl in *. unfold get_type_index.
  destruct (is_same X T) eqn:EX, (is_same Y T) eqn:EY.
  - apply is_same_true in EX as <-. apply is_same_true in EY as <-.
    by rewrite H0, H1, Z.eqb_refl, Z.ltb_irrefl.
  - apply is_same_true in EX as <-.
    apply elem_of_cons in HY as [->|HY]; [by rewrite is_same_refl in EY|].
    pose proof (type_traits_id_range Y Rest HY).
    rewrite H0, Z.eqb_refl.
    destruct (Z.eqb_spec (sizeof_pack Rest) (type_index v1)); [lia|].
    destruct (Z.ltb_spec (type_traits_id Y Rest) (sizeof_pack Rest)); [|lia].
    by apply binary_dispatcher_rhs_apply_id.
  - apply is_same_true in EY as <-.
    apply elem_of_cons in HX as [->|HX]; [by rewrite is_same_refl in EX|].
    pose proof (type_traits_id_range X Rest HX).
    destruct (Z.eqb_spec (type_index v0) (sizeof_pack Rest)); [lia|].
    rewrite H1, Z.eqb_refl.
    destruct (Z.ltb_spec (sizeof_pack Rest) (type_traits_id X Rest)); [lia|].
    by apply binary_dispatcher_lhs_apply_id.
  - apply elem_of_cons in HX as [->|HX]; [by rewrite is_same_refl in EX|].
    apply elem_of_cons in HY as [->|HY]; [by rewrite is_same_refl in EY|].
    pose proof (type_traits_id_range X Rest HX).
    pose proof (type_traits_id_range Y Rest HY).
    destruct (Z.eqb_spec (type_index v0) (sizeof_pack Rest)); [lia|].
    destruct (Z.eqb_spec (type_index v1) (sizeof_pack Rest)); [lia|].
    auto.
Qed.

Lemma binary_visit_holds {Types R} (v0 v1 : variant Types)
  (f : binary_visitor R) X Y (a : den X) (b : den Y) :
  holds v0 X a -> holds v1 Y b ->
  binary_visit v0 v1 f
  = if type_traits_id Y Types <? type_traits_id X Types
    then f (unwrap_ty X) (unwrapper X a) (unwrap_ty Y) (unwrapper Y b)
    else f X a Y b.
Proof.
  intros H0 H1. unfold binary_visit.
  rewrite (binary_dispatcher_apply_id v0 v1 f X Y Types);
    [|apply H0|apply H1|apply H0|apply H1].
  rewrite (holds_get v0 X a H0), (holds_get v1 Y b H1).
  by destruct (_ <? _).
Qed.

(** A [get<T>()] whose index test passes does not throw. *)
Lemma get_id_not_thrown {Types} (v : variant Types) T what :
  type_index v = type_traits_id T Types -> get T v <> Throw what.
Proof.
  intros Hid. unfold get. rewrite Hid, Z.eqb_refl. unfold reinterpret_cast.
  destruct (data v) as [[U x]|]; [|done]. by destruct (decide (U = T)).
Qed.

Lemma binary_dispatcher_rhs_apply_no_match {All R} (lhs rhs : variant All)
  (f : binary_visitor R) T0 :
  forall Types, ~ (0 <= type_index rhs < sizeof_pack Types) ->
  binary_dispatcher_rhs_apply T0 Types lhs rhs f = Throw "binary dispatch: FAIL".
Proof.
  unfold sizeof_pack.
  induction Types as [|T1 Rest IH]; [done|].
  intros Hr. simpl. unfold get_type_index, sizeof_pack. simpl length in Hr.
  destruct (Z.eqb_spec (type_index rhs) (Z.of_nat (length Rest))); [lia|].
  apply IH. lia.
Qed.

Lemma binary_dispatcher_lhs_apply_no_match {All R} (lhs rhs : variant All)
  (f : binary_visitor R) T0 :
  forall Types, ~ (0 <= type_index lhs < sizeof_pack Types) ->
  binary_dispatcher_lhs_apply T0 Types lhs rhs f = Throw "binary dispatch: FAIL".
Proof.
  unfold sizeof_pack.
  induction Types as [|T1 Rest IH]; [done|].
  intros Hr. simpl. unfold get_type_index, sizeof_pack. simpl length in Hr.
  destruct (Z.eqb_spec (type_index lhs) (Z.of_nat (length Rest))); [lia|].
  apply IH. lia.
Qed.

Lemma binary_dispatcher_apply_no_match_l {All R} (v0 v1 : variant All)
  (f : binary_visitor R) :
  forall Types, ~ (0 <= type_index v0 < sizeof_pack Types) ->
  binary_dispatcher_apply Types v0 v1 f = Throw "binary dispatch: FAIL".
Proof.
  unfold sizeof_pack.
  induction Types as [|T Rest IH]; [done|].
  intros Hr. simpl. unfold get_type_index, sizeof_pack. simpl length in Hr.
  destruct (Z.eqb_spec (type_index v0) (Z.of_nat (length Rest))); [lia|].
  destruct (Z.eqb_spec (type_index v1) (Z.of_nat (length Rest))).
  - apply binary_dispatcher_lhs_apply_no_match. unfold sizeof_pack. lia.
  - apply IH. lia.
Qed.

Lemma binary_dispatcher_apply_no_match_r {All R} (v0 v1 : variant All)
  (f : binary_visitor R) :
  forall Types, ~ (0 <= type_index v1 < sizeof_pack Types) ->
  binary_dispatcher_apply Types v0 v1 f = Throw "binary dispatch: FAIL".
Proof.
  unfold sizeof_pack.
  induction Types as [|T Rest IH]; [done|].
  intros Hr. simpl. unfold get_type_index, sizeof_pack. simpl length in Hr.
  destruct (Z.eqb_spec (type_index v0) (Z.of_nat (length Rest))) as [e|].
  - destruct (Z.eqb_spec (type_index v0) (type_index v1)); [lia|].
    apply binary_dispatcher_rhs_apply_no_match. unfold sizeof_pack. lia.
  - destruct (Z.eqb_spec (type_index v1) (Z.of_nat (length Rest))); [lia|].
    apply IH. lia.
Qed.

(** With an empty container on either side the chain runs out. *)
Lemma binary_visit_empty {Types R} (v0 v1 : variant Types)
  (f : binary_visitor R) :
  fits_size_t Types ->
  type_index v0 = invalid_value \/ type_index v1 = invalid_value ->
  binary_visit v0 v1 f = Throw "binary dispatch: FAIL".
Proof.
  unfold fits_size_t, binary_visit. intros Hfit [He|He].
  - apply binary_dispatcher_apply_no_match_l. rewrite He. lia.
  - apply binary_dispatcher_apply_no_match_r. rewrite He. lia.
Qed.

(** When both containers hold the same alternative, the visitor receives
    the two stored objects as they are, boxes included. *)
Lemma binary_visit_same {Types R} (v0 v1 : variant Types)
  (f : binary_visitor R) X (a b : den X) :
  holds v0 X a -> holds v1 X b -> binary_visit v0 v1 f = f X a X b.
Proof.
  intros H0 H1. rewrite (binary_visit_holds v0 v1 f X X a b H0 H1).
  by rewrite Z.ltb_irrefl.
Qed.

(** C6, for alternatives that are not indirection boxes: with A holding
    the alternative X and B holding the alternative Y, the same or another
    one, the result of the binary visitation is the visitor's one call at
    the static types (X, Y) on A's value first and B's value second (the
    reporting visitor shows the call); and whatever the containers hold,
    when both discriminants are ids of declared alternatives the dispatch
    does not end in the dispatch-failure error. *)
Theorem binary_visit_plain {Types R} (A B : variant Types)
  (f : binary_visitor R) X Y (a : den X) (b : den Y) :
  holds A X a -> holds B Y b ->
  is_wrapper X = false -> is_wrapper Y = false ->
  binary_visit A B f = f X a Y b
  /\ binary_visit A B report2 = Ret (existT X a, existT Y b)
  /\ (forall (v0 v1 : variant Types) T0 T1,
        T0 ∈ Types -> type_index v0 = type_traits_id T0 Types ->
        T1 ∈ Types -> type_index v1 = type_traits_id T1 Types ->
        binary_visit v0 v1 report2 <> Throw "binary dispatch: FAIL").
Proof.
  intros HA HB HX HY.
  assert (forall R' (g : binary_visitor R'), binary_visit A B g = g X a Y b) as Hcall.
  { intros R' g. rewrite (binary_visit_holds A B g X Y a b HA HB).
    destruct (_ <? _); [by apply unwrapper_plain2|done]. }
  repeat split; [apply Hcall..|].
  intros v0 v1 T0 T1 HT0 H0 HT1 H1. unfold binary_visit.
  rewrite (binary_dispatcher_apply_id v0 v1 report2 T0 T1 Types HT0 HT1 H0 H1).
  pose proof (get_id_not_thrown v0 T0) as N0.
  pose proof (get_id_not_thrown v1 T1) as N1.
  destruct (_ <? _), (get T0 v0) as [x|w|] eqn:E0; simpl; try done;
    try (by destruct (N0 w));
    destruct (get T1 v1) as [y|w|] eqn:E1; simpl; try done;
    by destruct (N1 w).
Qed.

End Visitation.

(** ** Comparison and formatting *)

Section Comparison.
Context `{Operators}.
Implicit Types (T U : ty) (Types : list ty).

Lemma variant_eq_differ {Types} (a b : variant Types) :
  type_index a <> type_index b ->
  variant_eq a b = Ret false
  /\ variant_lt a b = Ret (type_index a <? type_index b).
Proof.
  intros Hne. unfold variant_eq, variant_lt, get_type_index.
  by destruct (Z.eqb_spec (type_index a) (type_index b)).
Qed.

(** The comparison of two containers with the same discriminant is the
    visit of the right-hand side by the comparer of the left-hand side. *)
Lemma compare_same {Types} (a b : variant Types) T (x y : den T) :
  holds a T x -> holds b T y ->
  variant_eq a b
  = (l ← get (unwrap_ty T) a; Ret (equal_comp (unwrap_ty T) l (unwrapper T y)))
  /\ variant_lt a b
  = (l ← get (unwrap_ty T) a; Ret (less_comp (unwrap_ty T) l (unwrapper T y))).
Proof.
  intros Ha Hb. unfold variant_eq, variant_lt, get_type_index.
  destruct Ha as (HT & Hia & Hda), Hb as (_ & Hib & Hdb).
  rewrite Hia, Hib, Z.eqb_refl. simpl.
  by rewrite !(visit_holds b _ T y).
Qed.

(** Equality and ordering of two containers that hold the same alternative,
    not an indirection box: the alternative's own operators on the two
    stored values. *)
Lemma compare_plain {Types} (a b : variant Types) T (x y : den T) :
  holds a T x -> holds b T y -> is_wrapper T = false ->
  variant_eq a b = Ret (op_eq T x y) /\ variant_lt a b = Ret (op_lt T x y).
Proof.
  intros Ha Hb HT. destruct (compare_same a b T x y Ha Hb) as [-> ->].
  destruct T as [p|]; [|done]. simpl.
  by rewrite (holds_get a (Prim p) x Ha).
Qed.

(** Equality is reflexive and symmetric on containers that hold an
    alternative other than a box whose own equality is. *)
Lemma variant_eq_refl_sym {Types} (a b : variant Types) T (x y : den T) :
  holds a T x -> holds b T y -> is_wrapper T = false ->
  (forall z : den T, op_eq T z z = true) ->
  (forall z w : den T, op_eq T z w = op_eq T w z) ->
  variant_eq a a = Ret true /\ variant_eq a b = variant_eq b a.
Proof.
  intros Ha Hb HT Hrefl Hsym.
  rewrite (proj1 (compare_plain a a T x x Ha Ha HT)).
  rewrite (proj1 (compare_plain a b T x y Ha Hb HT)).
  rewrite (proj1 (compare_plain b a T y x Hb Ha HT)).
  by rewrite Hrefl, (Hsym x y).
Qed.

(** C5, on indirection boxes: when both containers hold the same box
    alternative, [operator==] does not return the payloads' equality: the
    comparer is called on the unwrapped right-hand payload and asks the
    left-hand container for the payload type, which is not its active
    alternative, so the type-mismatch error leaves the comparison; in
    particular a container holding a box is not equal to itself. *)
Theorem variant_eq_box_throws {Types} (a b : variant Types) T (x y : den T) :
  fits_size_t Types -> holds a T x -> holds b T y -> is_wrapper T = true ->
  variant_eq a b = Throw "in get()" /\ variant_eq a a = Throw "in get()".
Proof.
  intros Hfit Ha Hb HT.
  pose proof (holds_get_other a T (unwrap_ty T) x Hfit Ha
                (unwrap_ty_wrapper T HT)) as Hget.
  rewrite (proj1 (compare_same a b T x y Ha Hb)).
  rewrite (proj1 (compare_same a a T x x Ha Ha)).
  by rewrite Hget.
Qed.

Lemma variant_lt_box_throws {Types} (a b : variant Types) T (x y : den T) :
  fits_size_t Types -> holds a T x -> holds b T y -> is_wrapper T = true ->
  variant_lt a b = Throw "in get()".
Proof.
  intros Hfit Ha Hb HT.
  pose proof (holds_get_other a T (unwrap_ty T) x Hfit Ha
                (unwrap_ty_wrapper T HT)) as Hget.
  rewrite (proj2 (compare_same a b T x y Ha Hb)).
  by rewrite Hget.
Qed.

(** C9: on two empty (default-constructed) containers [operator==] and
    [operator<] do not return: the discriminants are equal, both being
    [invalid_value], so each operator goes on to the visitation, which
    matches no alternative and throws the dispatch-failure error; so does
    the comparison of an empty container with itself. *)
Theorem compare_empty_throws {Types} (a b : variant Types) :
  fits_size_t Types -> is_empty a -> is_empty b ->
  variant_eq a b = Throw "unary dispatch: FAIL"
  /\ variant_lt a b = Throw "unary dispatch: FAIL"
  /\ variant_eq a a = Throw "unary dispatch: FAIL"
  /\ variant_eq (@variant_default _ Types) variant_default
     = Throw "unary dispatch: FAIL"
  /\ variant_lt (@variant_default _ Types) variant_default
     = Throw "unary dispatch: FAIL".
Proof.
  intros Hfit [Ha _] [Hb _].
  assert (forall u v : variant Types,
            type_index u = invalid_value -> type_index v = invalid_value ->
            variant_eq u v = Throw "unary dispatch: FAIL"
            /\ variant_lt u v = Throw "unary dispatch: FAIL") as Hboth.
  { intros u v Hu Hv. unfold variant_eq, variant_lt, get_type_index.
    rewrite Hu, Hv, Z.eqb_refl. simpl.
    by rewrite !(visit_empty v _ Hfit Hv). }
  repeat split; try apply Hboth; done.
Qed.

(** Formatting writes the active value with its own stream insertion; a
    box is written as its payload. *)
Lemma variant_shl_holds {Types} (out : string) (v : variant Types) T (x : den T) :
  holds v T x -> variant_shl out v = Ret (op_shl (unwrap_ty T) out (unwrapper T x)).
Proof.
  intros Hv. unfold variant_shl, apply_visitor. by rewrite (visit_holds v _ T x Hv).
Qed.

End Comparison.

(** ** Copy, swap and assignment *)

Section Assignment.
Context `{Operators} `{!Relocation}.
Implicit Types (T U : ty) (Types All : list ty).

Lemma helper_copy_id T (old_value new_value : data_type) (id : Z) :
  forall Types, T ∈ Types -> id = type_traits_id T Types ->
  helper_copy Types id old_value new_value
  = (x ← reinterpret_cast T old_value;
     match copy_throws T x with
     | Some what => Throw what
     | None => Ret (Some (existT T x))
     end).
Proof.
  induction Types as [|First Rest IH]; [by intros ?%elem_of_nil|].
  intros HT Hid. simpl in *.
  destruct (is_same T First) eqn:E.
  - apply is_same_true in E as <-. by rewrite Hid, Z.eqb_refl.
  - apply elem_of_cons in HT as [->|HT]; [by rewrite is_same_refl in E|].
    pose proof (type_traits_id_range T Rest HT).
    destruct (Z.eqb_spec id (sizeof_pack Rest)); [lia|]. auto.
Qed.

Lemma helper_copy_no_match (old_value new_value : data_type) (id : Z) :
  forall Types, ~ (0 <= id < sizeof_pack Types) ->
  helper_copy Types id old_value new_value = Ret new_value.
Proof.
  unfold sizeof_pack.
  induction Types as [|First Rest IH]; [done|].
  intros Hr. simpl. unfold sizeof_pack. simpl length in Hr.
  destruct (Z.eqb_spec id (Z.of_nat (length Rest))); [lia|].
  apply IH. lia.
Qed.

Lemma helper_destroy_id T (d : data_type) (id : Z) :
  forall Types, T ∈ Types -> id = type_traits_id T Types ->
  helper_destroy Types id d = (_ ← reinterpret_cast T d; Ret None).
Proof.
  induction Types as [|First Rest IH]; [by intros ?%elem_of_nil|].
  intros HT Hid. simpl in *.
  destruct (is_same T First) eqn:E.
  - apply is_same_true in E as <-. by rewrite Hid, Z.eqb_refl.
  - apply elem_of_cons in HT as [->|HT]; [by rewrite is_same_refl in E|].
    pose proof (type_traits_id_range T Rest HT).
    destruct (Z.eqb_spec id (sizeof_pack Rest)); [lia|]. auto.
Qed.

Lemma helper_destroy_no_match (d : data_type) (id : Z) :
  forall Types, ~ (0 <= id < sizeof_pack Types) ->
  helper_destroy Types id d = Ret d.
Proof.
  unfold sizeof_pack.
  induction Types as [|First Rest IH]; [done|].
  intros Hr. simpl. unfold sizeof_pack. simpl length in Hr.
  destruct (Z.eqb_spec id (Z.of_nat (length Rest))); [lia|].
  apply IH. lia.
Qed.

(** The destructor of a well-formed container returns. *)
Lemma helper_destroy_well_formed {Types} (v : variant Types) :
  fits_size_t Types -> well_formed v ->
  exists d, helper_destroy Types (type_index v) (data v) = Ret d.
Proof.
  unfold fits_size_t. intros Hfit [[He Hd]|(T & x & HT & Hid & Hd)].
  - exists (data v). apply helper_destroy_no_match. rewrite He. lia.
  - exists None. rewrite (helper_destroy_id T _ _ Types HT Hid), Hd.
    by rewrite reinterpret_cast_live.
Qed.

(** The copy constructor on a container that holds [x]: the copy is equal
    to the source unless the copy constructor of [x] throws. *)
Lemma variant_copy_holds {Types} (old : variant Types) T (x : den T) :
  holds old T x ->
  variant_copy old
  = match copy_throws T x with Some what => Throw what | None => Ret old end.
Proof.
  intros (HT & Hid & Hd). unfold variant_copy.
  rewrite (helper_copy_id T _ _ _ Types HT Hid), Hd, reinterpret_cast_live.
  simpl. destruct (copy_throws T x); [done|]. simpl.
  destruct old as [i d]. simpl in *. by subst.
Qed.

Lemma variant_copy_empty {Types} (old : variant Types) :
  fits_size_t Types -> is_empty old -> variant_copy old = Ret old.
Proof.
  unfold fits_size_t. intros Hfit [He Hd]. unfold variant_copy.
  rewrite helper_copy_no_match by (rewrite He; lia). simpl.
  destruct old as [i d]. simpl in *. by subst.
Qed.

(** A failed copy leaves the store as it was. *)
Lemma assign_copy_throws {Types} (s : store Types) (this src : nat)
  (old : variant Types) what :
  s !! src = Some old -> variant_copy old = Throw what ->
  assign this src s = (Throw what, s).
Proof. intros Hs Hc. unfold assign. by rewrite Hs, Hc. Qed.

Lemma relocate_live T (x : den T) :
  relocate (Some (existT T x))
  = if relocatable T x then Some (existT T x) else None.
Proof. done. Qed.

Lemma relocatable_held_eta {Types} (v : variant Types) :
  relocatable_held v -> make_variant (type_index v) (relocate (data v)) = v.
Proof. unfold relocatable_held. intros ->. by destruct v. Qed.

(** What the assignment does once the copy has returned: the bytes of the
    temporary go to the target and the bytes of the target to the
    temporary, whose destructor then runs on them. *)
Lemma assign_after_copy {Types} (s : store Types) (this src : nat)
  (tgt old tmp : variant Types) :
  s !! this = Some tgt -> s !! src = Some old -> variant_copy old = Ret tmp ->
  let other := fresh (dom s) in
  let moved := make_variant (type_index tmp) (relocate (data tmp)) in
  assign this src s
  = match helper_destroy Types (type_index tgt) (relocate (data tgt)) with
    | Ret _ => (Ret (), <[this := moved]> s)
    | Throw what =>
        (Throw what,
         <[other := make_variant (type_index tgt) (relocate (data tgt))]>
           (<[this := moved]> (<[other := tmp]> s)))
    | Undefined =>
        (Undefined,
         <[other := make_variant (type_index tgt) (relocate (data tgt))]>
           (<[this := moved]> (<[other := tmp]> s)))
    end.
Proof.
  intros Ht Hs Hc other moved. unfold assign. rewrite Hs, Hc.
  fold other.
  assert (s !! other = None) as Hother.
  { apply not_elem_of_dom, is_fresh. }
  assert (this <> other) as Hne by congruence.
  unfold swap. rewrite lookup_insert_ne, Ht, lookup_insert_eq by done.
  destruct (decide (this = other)) as [|_]; [done|]. fold moved.
  unfold destruct_at. rewrite lookup_insert_eq. cbn [type_index data].
  destruct (helper_destroy _ _ _); [|done..].
  f_equal. rewrite delete_insert_eq, delete_insert_ne by done.
  by rewrite delete_insert_eq, delete_id by done.
Qed.

(** After a successful copy, with a target whose value is relocatable, the
    target has the bytes of the temporary, and nothing else in the store
    has changed. *)
Lemma assign_copy_returns {Types} (s : store Types) (this src : nat)
  (tgt old tmp : variant Types) :
  fits_size_t Types -> well_formed tgt -> relocatable_held tgt ->
  s !! this = Some tgt -> s !! src = Some old -> variant_copy old = Ret tmp ->
  assign this src s
  = (Ret (), <[this := make_variant (type_index tmp) (relocate (data tmp))]> s).
Proof.
  intros Hfit Hwf Hrel Ht Hs Hc.
  rewrite (assign_after_copy s this src tgt old tmp Ht Hs Hc).
  unfold relocatable_held in Hrel. rewrite Hrel.
  by destruct (helper_destroy_well_formed tgt Hfit Hwf) as [d ->].
Qed.

(** Assignment between containers whose values are relocatable: when the
    copy succeeds, the target afterwards is equal to the source as it was,
    the source is as it was, and so is every other object, also when [src]
    is [this]; when the copy constructor of the source's value throws, the
    store is as it was. *)
Lemma assign_relocatable {Types} (s : store Types) (this src : nat)
  (tgt old : variant Types) :
  fits_size_t Types -> well_formed tgt -> well_formed old ->
  relocatable_held tgt -> relocatable_held old ->
  s !! this = Some tgt -> s !! src = Some old ->
  ((forall T (x : den T), holds old T x -> copy_throws T x = None) ->
     exists s', assign this src s = (Ret (), s')
       /\ s' !! this = Some old
       /\ s' !! src = Some old
       /\ (forall p, p <> this -> s' !! p = s !! p))
  /\ (forall T (x : den T) what,
        holds old T x -> copy_throws T x = Some what ->
        assign this src s = (Throw what, s)).
Proof.
  intros Hfit Hwt Hwo Hrt Hro Ht Hs. split.
  - intros Hcopy. exists (<[this := old]> s).
    assert (variant_copy old = Ret old) as Hc.
    { destruct Hwo as [He|(T & x & Hv)].
      - by apply variant_copy_empty.
      - by rewrite (variant_copy_holds old T x Hv), (Hcopy T x Hv). }
    split.
    { rewrite (assign_copy_returns s this src tgt old old); try done.
      by rewrite relocatable_held_eta. }
    split; [apply lookup_insert_eq|]. split.
    + destruct (decide (this = src)) as [->|Hne];
        [apply lookup_insert_eq|by rewrite lookup_insert_ne].
    + intros p Hp. by rewrite lookup_insert_ne.
  - intros T x what Hv Hthrow. eapply assign_copy_throws; [done|].
    by rewrite (variant_copy_holds old T x Hv), Hthrow.
Qed.

(** C8 fails on the code for a source value that is not relocatable:
    [*this = src] copy-constructs the temporary and then swaps storage
    bytes, running no move constructor.  With another object as the target,
    the assignment returns and the target has the source's discriminant but
    no live object: get<T>() on it has no defined behaviour, so the target
    is not equal to the source.  In a self-assignment the bytes of the
    object end in the temporary, and the temporary's destructor has no
    defined behaviour. *)
Theorem assign_relocates_bytes {Types} (s : store Types) (src : nat)
  (old : variant Types) T (x : den T) :
  fits_size_t Types -> s !! src = Some old ->
  holds old T x -> copy_throws T x = None -> relocatable T x = false ->
  (forall this tgt, this <> src -> s !! this = Some tgt ->
     well_formed tgt -> relocatable_held tgt ->
     exists s' v', assign this src s = (Ret (), s')
       /\ s' !! this = Some v'
       /\ type_index v' = type_index old /\ data v' = None
       /\ is_ T v' = true /\ get T v' = Undefined
       /\ ~ well_formed v'
       /\ s' !! src = Some old)
  /\ (exists s', assign src src s = (Undefined, s')).
Proof.
  intros Hfit Hs Hv Hcopy Hrel.
  assert (variant_copy old = Ret old) as Hc
    by (by rewrite (variant_copy_holds old T x Hv), Hcopy).
  pose proof Hv as (HT & Hid & Hd).
  assert (relocate (data old) = None) as Hmoved
    by (by rewrite Hd, relocate_live, Hrel).
  split.
  - intros this tgt Hne Ht Hwt Hrt.
    rewrite (assign_copy_returns s this src tgt old old Hfit Hwt Hrt Ht Hs Hc).
    rewrite Hmoved. eexists _, _. split; [done|].
    split; [apply lookup_insert_eq|]. cbn [type_index data].
    split; [done|]. split; [done|]. split; [|split; [|split]].
    + unfold is_. cbn [type_index]. rewrite Hid. apply Z.eqb_refl.
    + unfold get. cbn [type_index data]. by rewrite Hid, Z.eqb_refl.
    + intros [[Hi _]|(U & y & _ & _ & Hy)]; [|done]. cbn in Hi.
      by destruct (holds_index_valid old T x Hfit Hv).
    + by rewrite lookup_insert_ne.
  - rewrite (assign_after_copy s src src old old old Hs Hs Hc).
    rewrite Hmoved, (helper_destroy_id T _ _ Types HT Hid). simpl.
    by eexists.
Qed.

(** Construction, copy and assignment keep the invariants. *)
Lemma variant_default_well_formed {Types} :
  well_formed (@variant_default _ Types).
Proof. left. apply variant_default_is_empty. Qed.

Lemma variant_ctor_well_formed {Types} T (val : den T) (v : variant Types) :
  variant_ctor T val = Some v -> well_formed v.
Proof.
  unfold variant_ctor. destruct (is_valid_type T Types) eqn:E; [|done].
  intros [= <-]. right. exists T, val.
  split; [by apply is_valid_type_elem_of|done].
Qed.

Lemma variant_copy_well_formed {Types} (old tmp : variant Types) :
  fits_size_t Types -> well_formed old -> variant_copy old = Ret tmp ->
  well_formed tmp.
Proof.
  intros Hfit Hwf. destruct Hwf as [He|(T & x & Hv)].
  - rewrite (variant_copy_empty old Hfit He). intros [= <-]. by left.
  - rewrite (variant_copy_holds old T x Hv).
    destruct (copy_throws T x); [done|]. intros [= <-]. right. by exists T, x.
Qed.

Lemma variant_copy_relocatable_held {Types} (old tmp : variant Types) :
  fits_size_t Types -> well_formed old -> relocatable_held old ->
  variant_copy old = Ret tmp -> tmp = old.
Proof.
  intros Hfit Hwf Hrel. destruct Hwf as [He|(T & x & Hv)].
  - rewrite (variant_copy_empty old Hfit He). by intros [= <-].
  - rewrite (variant_copy_holds old T x Hv).
    destruct (copy_throws T x); [done|]. by intros [= <-].
Qed.

Lemma assign_well_formed {Types} (s s' : store Types) (this src : nat)
  (tgt : variant Types) r :
  fits_size_t Types -> s !! this = Some tgt ->
  (forall p v, s !! p = Some v -> well_formed v /\ relocatable_held v) ->
  assign this src s = (r, s') ->
  (forall p v, s' !! p = Some v -> well_formed v /\ relocatable_held v)
  /\ dom s' = dom s.
Proof.
  intros Hfit Ht Hall Hassign.
  destruct (s !! src) as [old|] eqn:Hs;
    [|unfold assign in Hassign; rewrite Hs in Hassign;
      by injection Hassign as <- <-].
  destruct (Hall _ _ Ht) as [Hwt Hrt]. destruct (Hall _ _ Hs) as [Hwo Hro].
  destruct (variant_copy old) as [tmp|what|] eqn:Hc.
  - rewrite (assign_copy_returns s this src tgt old tmp Hfit Hwt Hrt Ht Hs Hc)
      in Hassign.
    rewrite (variant_copy_relocatable_held old tmp Hfit Hwo Hro Hc) in Hassign.
    rewrite relocatable_held_eta in Hassign by done.
    injection Hassign as <- <-. split.
    + intros p v. destruct (decide (this = p)) as [<-|Hne].
      * rewrite lookup_insert_eq. by intros [= <-].
      * rewrite lookup_insert_ne by done. apply Hall.
    + apply dom_insert_lookup_L. by exists tgt.
  - rewrite (assign_copy_throws s this src old what Hs Hc) in Hassign.
    by injection Hassign as <- <-.
  - unfold assign in Hassign. rewrite Hs, Hc in Hassign.
    by injection Hassign as <- <-.
Qed.

End Assignment.

(** ** The example scenario *)

Section Scenario.
Import Example.
#[local] Existing Instance alternatives.
#[local] Existing Instance operators.
#[local] Existing Instance relocation.

Ltac example_holds :=
  split; [repeat constructor | split; reflexivity].

Ltac example_fits :=
  unfold fits_size_t, sizeof_pack; rewrite invalid_value_eq; simpl; lia.

Lemma NoDup_Types : NoDup Types.
Proof.
  apply NoDup_cons. split; [|apply NoDup_singleton].
  by intros [=]%list_elem_of_singleton.
Qed.

Lemma holds_a : holds a (Prim Integer) 5.
Proof. example_holds. Qed.

Lemma holds_b : holds b (Prim Text) "hi".
Proof. example_holds. Qed.

Lemma holds_box5 : holds box5 (Wrapper (Prim Integer)) (make_recursive_wrapper 5).
Proof. example_holds. Qed.

Lemma holds_box7 : holds box7 (Wrapper (Prim Integer)) (make_recursive_wrapper 7).
Proof. example_holds. Qed.

Lemma holds_hi : holds hi (Prim Text) "hi".
Proof. example_holds. Qed.

(** C1, as the code has it: with the alternatives {Integer, Text},
    [a = Integer(5)] and [b = Text("hi")], a.is<Integer>() is true,
    a.get<Integer>() is 5 and a == b is false; Integer, declared first, has
    the id 1 and Text the id 0, so a < b is false and b < a is true. *)
Theorem example_scenario :
  variant_ctor (Prim Integer) 5 = Some a
  /\ variant_ctor (Prim Text) "hi" = Some b
  /\ is_ (Prim Integer) a = true
  /\ get (Prim Integer) a = Ret 5
  /\ variant_eq a b = Ret false
  /\ type_traits_id (Prim Integer) Types = 1
  /\ type_traits_id (Prim Text) Types = 0
  /\ variant_lt a b = Ret false
  /\ variant_lt b a = Ret true.
Proof. repeat split. Qed.

(** C1 as stated fails: a < b does not return true. *)
Lemma example_scenario_lt_not_true :
  variant_ctor (Prim Integer) 5 = Some a
  /\ variant_ctor (Prim Text) "hi" = Some b
  /\ variant_lt a b <> Ret true.
Proof. repeat split. vm_compute. discriminate. Qed.

(** C6 as stated fails on a box: with A holding the boxed 5 and B the text,
    the visitor is not called on A's stored box but on its payload, at the
    static types (Integer, Text); and with both holding a box the visitor is
    not called on the payloads either, but on the two boxes. *)
Lemma binary_visit_box_not_as_stored :
  holds box5 (Wrapper (Prim Integer)) (make_recursive_wrapper 5)
  /\ holds hi (Prim Text) "hi"
  /\ binary_visit box5 hi report2
     <> Ret (existT (Wrapper (Prim Integer)) (make_recursive_wrapper 5),
             existT (Prim Text) "hi")
  /\ binary_visit box5 box7 report2
     <> Ret (existT (Prim Integer) 5, existT (Prim Integer) 7).
Proof.
  split; [apply holds_box5|]. split; [apply holds_hi|].
  split; vm_compute; intros [= ?]; discriminate.
Qed.

(** C7 fails on the code: the unary visitation, formatting and the
    [binary_dispatcher_rhs] branch unwrap a box, but the same-alternative
    branch of [binary_dispatcher] and [binary_dispatcher_lhs] hand the box
    itself to the visitor, and [operator==] and [operator<] on two boxes
    never reach the comparison: they throw the type-mismatch error. *)
Theorem box_not_unwrapped_everywhere :
  visit box5 report = Ret (existT (Prim Integer) 5)
  /\ variant_shl "" box5 = Ret "5"
  /\ binary_visit tb_hi tb_box5 report2
     = Ret (existT (Prim Text) "hi", existT (Prim Integer) 5)
  /\ binary_visit box5 box7 report2
     = Ret (existT (Wrapper (Prim Integer)) (make_recursive_wrapper 5),
            existT (Wrapper (Prim Integer)) (make_recursive_wrapper 7))
  /\ binary_visit hi box5 report2
     = Ret (existT (Prim Text) "hi",
            existT (Wrapper (Prim Integer)) (make_recursive_wrapper 5))
  /\ variant_eq box5 box5 = Throw "in get()"
  /\ variant_lt box5 box7 = Throw "in get()".
Proof. repeat split. Qed.

Lemma well_formed_a : well_formed a.
Proof. right. eexists _, _. apply holds_a. Qed.

Lemma well_formed_b : well_formed b.
Proof. right. eexists _, _. apply holds_b. Qed.

Lemma fits_Types : fits_size_t Types.
Proof. example_fits. Qed.

(** The registry on {Integer, Text}. *)
Lemma type_traits_reverse_position_witness :
  type_traits_id (Prim Integer) Types = 1
  /\ type_traits_id (Prim Text) Types = 0
  /\ type_traits_id (Wrapper (Prim Text)) Types = invalid_value.
Proof.
  destruct (type_traits_reverse_position Types NoDup_Types)
    as (Hpos & _ & _ & _ & _ & Hout).
  split; [exact (Hpos 0%nat _ eq_refl)|].
  split; [exact (Hpos 1%nat _ eq_refl)|].
  apply Hout. by intros [[=]|[[=]|[]%elem_of_nil]%elem_of_cons]%elem_of_cons.
Defined.

(** Construction from Integer(5). *)
Lemma variant_ctor_is_get_witness :
  exists v : variant Types,
    variant_ctor (Prim Integer) 5 = Some v
    /\ is_ (Prim Integer) v = true
    /\ get (Prim Integer) v = Ret 5
    /\ (forall U, U ∈ Types -> U <> Prim Integer -> is_ U v = false).
Proof. apply (variant_ctor_is_get (Types:=Types) (@Prim alternatives Integer) 5). repeat constructor. Defined.

(** get<Integer>() and get<Text>() on [a]. *)
Lemma get_iff_type_index_witness :
  (exists x, data a = Some (existT (Prim Integer) x)
             /\ get (Prim Integer) a = Ret x)
  /\ get (Prim Text) a = Throw "in get()".
Proof.
  split.
  - destruct (get_iff_type_index a (@Prim alternatives Integer)
                fits_Types well_formed_a) as (Hyes & _); [repeat constructor|].
    by apply Hyes.
  - destruct (get_iff_type_index a (@Prim alternatives Text)
                fits_Types well_formed_a) as (_ & Hno & _); [repeat constructor|].
    by apply Hno.
Defined.

(** Two boxed integers are compared. *)
Lemma variant_eq_box_throws_witness :
  variant_eq box5 box7 = Throw "in get()"
  /\ variant_eq box5 box5 = Throw "in get()".
Proof.
  apply (variant_eq_box_throws box5 box7 (Wrapper (@Prim alternatives Integer))
           (make_recursive_wrapper 5) (make_recursive_wrapper 7)).
  - example_fits.
  - example_holds.
  - example_holds.
  - reflexivity.
Defined.

(** The binary visitation of [a] and [b], and of [b] and [a]. *)
Lemma binary_visit_plain_witness :
  binary_visit a b report2 = Ret (existT (Prim Integer) 5, existT (Prim Text) "hi")
  /\ binary_visit b a report2 = Ret (existT (Prim Text) "hi", existT (Prim Integer) 5).
Proof.
  split.
  - apply (binary_visit_plain a b report2 (@Prim alternatives Integer)
             (@Prim alternatives Text) 5 "hi");
      [example_holds|example_holds|reflexivity|reflexivity].
  - apply (binary_visit_plain b a report2 (@Prim alternatives Text)
             (@Prim alternatives Integer) "hi" 5);
      [example_holds|example_holds|reflexivity|reflexivity].
Defined.

(** [a = b] and [b = b] with the short text "hi" in [b]. *)
Lemma assign_relocates_bytes_witness :
  (exists s' v', assign 0 1 objects = (Ret (), s')
     /\ s' !! 0%nat = Some v'
     /\ type_index v' = type_index b /\ data v' = None
     /\ is_ (Prim Text) v' = true /\ get (Prim Text) v' = Undefined
     /\ ~ well_formed v'
     /\ s' !! 1%nat = Some b)
  /\ (exists s', assign 1 1 objects = (Undefined, s')).
Proof.
  destruct (@assign_relocates_bytes _ operators relocation _ objects 1 b
              (@Prim alternatives Text) "hi"
              fits_Types eq_refl holds_b eq_refl eq_refl) as [Hother Hself].
  split; [|exact Hself].
  apply (Hother 0%nat a); [lia|reflexivity|apply well_formed_a|reflexivity].
Defined.

(** Two default-constructed [variant<Integer, Text>]. *)
Lemma compare_empty_throws_witness :
  variant_eq (@variant_default _ Types) variant_default
  = Throw "unary dispatch: FAIL"
  /\ variant_lt (@variant_default _ Types) variant_default
     = Throw "unary dispatch: FAIL".
Proof.
  destruct (compare_empty_throws (@variant_default _ Types) variant_default
              fits_Types variant_default_is_empty variant_default_is_empty)
    as (He & Hl & _).
  by split.
Defined.

(** A default-constructed [variant<Integer, Text>]. *)
Lemma variant_default_observers_witness :
  valid (@variant_default _ Types) = false
  /\ is_ (Prim Integer) (@variant_default _ Types) = false
  /\ get (Prim Text) (@variant_default _ Types) = Throw "in get()".
Proof.
  destruct (@variant_default_observers _ Types fits_Types) as [Hv Hall].
  split; [done|]. split.
  - apply Hall. repeat constructor.
  - apply Hall. repeat constructor.
Defined.

End Scenario.

(** * Further properties of the code *)

(** ** Storage size and the registry *)

Section StorageAndRegistry.
Context `{Layout}.
Implicit Types (T U : ty) (Types Pre Rest : list ty).

Lemma static_max_ge_first (others : list Z) :
  forall arg1, arg1 <= static_max arg1 others.
Proof.
  induction others as [|arg2 others IH]; intros arg1; simpl; [lia|].
  destruct (Z.geb_spec arg1 arg2).
  - apply IH.
  - specialize (IH arg2). lia.
Qed.

Lemma static_max_upper (others : list Z) :
  forall arg1 x, x ∈ others -> x <= static_max arg1 others.
Proof.
  induction others as [|arg2 others IH]; intros arg1 x Hx;
    [by apply elem_of_nil in Hx|].
  simpl. apply elem_of_cons in Hx as [->|Hx].
  - destruct (Z.geb_spec arg1 arg2).
    + pose proof (static_max_ge_first others arg1). lia.
    + apply static_max_ge_first.
  - destruct (Z.geb_spec arg1 arg2); by apply IH.
Qed.

Lemma static_max_elem (others : list Z) :
  forall arg1, static_max arg1 others ∈ arg1 :: others.
Proof.
  induction others as [|arg2 others IH]; intros arg1; simpl;
    [apply list_elem_of_here|].
  destruct (Z.geb_spec arg1 arg2).
  - specialize (IH arg1). apply elem_of_cons in IH as [->|IH].
    + apply list_elem_of_here.
    + by do 2 apply list_elem_of_further.
  - apply list_elem_of_further, IH.
Qed.

Lemma static_max_pack_covers (f : ty -> Z) Types T :
  T ∈ Types ->
  exists arg1 others, f <$> Types = arg1 :: others
    /\ f T <= static_max arg1 others
    /\ exists U, U ∈ Types /\ static_max arg1 others = f U.
Proof.
  intros HT. destruct Types as [|First Rest]; [by apply elem_of_nil in HT|].
  exists (f First), (f <$> Rest). split; [done|]. split.
  - apply elem_of_cons in HT as [->|HT].
    + apply static_max_ge_first.
    + apply static_max_upper. by apply list_elem_of_fmap_2.
  - pose proof (static_max_elem (f <$> Rest) (f First)) as Hel.
    change (f First :: (f <$> Rest)) with (f <$> First :: Rest) in Hel.
    apply list_elem_of_fmap in Hel as (U & -> & HU). by exists U.
Qed.

(** The storage is as large and as aligned as the largest and the most
    aligned alternative: [data_size] is at least the size of every declared
    alternative and is the size of one of them, and so for [data_align]. *)
Theorem data_size_covers_alternatives Types T :
  T ∈ Types ->
  exists size align,
    data_size Types = Some size /\ data_align Types = Some align
    /\ size_of T <= size /\ align_of T <= align
    /\ (exists U, U ∈ Types /\ size = size_of U)
    /\ (exists U, U ∈ Types /\ align = align_of U).
Proof.
  intros HT.
  destruct (static_max_pack_covers size_of Types T HT)
    as (s1 & so & Hs & Hle & HU).
  destruct (static_max_pack_covers align_of Types T HT)
    as (a1 & ao & Ha & Hale & HUa).
  exists (static_max s1 so), (static_max a1 ao).
  unfold data_size, data_align. by rewrite Hs, Ha.
Qed.

Lemma fits_storage_declared Types T :
  T ∈ Types -> fits_storage T Types = true.
Proof.
  intros HT.
  destruct (static_max_pack_covers size_of Types T HT) as (s1 & so & Hs & Hle & _).
  destruct (static_max_pack_covers align_of Types T HT) as (a1 & ao & Ha & Hale & _).
  unfold fits_storage, data_size, data_align. rewrite Hs, Ha.
  apply andb_true_iff. split; by apply Z.leb_le.
Qed.

(** The two registry functions agree: a type is accepted by
    [is_valid_type] exactly when [type_traits] gives it an id other than
    [invalid_value]. *)
Theorem is_valid_type_iff_id Types T :
  fits_size_t Types ->
  is_valid_type T Types = true <-> type_traits_id T Types <> invalid_value.
Proof.
  intros Hfit. rewrite is_valid_type_elem_of. split.
  - by apply type_traits_id_valid.
  - intros Hid. destruct (decide (T ∈ Types)) as [|Hn]; [done|].
    destruct Hid. by apply type_traits_id_not_elem_of.
Qed.

(** Also in a pack that repeats types, the id of a type counts the types
    after its first occurrence. *)
Theorem type_traits_id_first_occurrence Pre Rest T :
  T ∉ Pre -> type_traits_id T (Pre ++ T :: Rest) = sizeof_pack Rest.
Proof.
  induction Pre as [|First Pre IH]; simpl; intros Hn.
  - by rewrite is_same_refl.
  - apply not_elem_of_cons in Hn as [Hne Hn].
    rewrite is_same_neq by done. auto.
Qed.

End StorageAndRegistry.

(** ** Observers, typed set, copy and swap *)

Section ContainerOperations.
Context `{Operators} `{!Layout} `{!Relocation}.
Implicit Types (T U : ty) (Types : list ty).

Lemma is_empty_not_holds {Types} (v : variant Types) T (x : den T) :
  is_empty v -> ~ holds v T x.
Proof. intros [_ Hd] (_ & _ & Hx). congruence. Qed.

(** On a well-formed container valid() tells whether an alternative is
    held, and exactly one declared alternative answers is<U>(): the one
    that is held. *)
Theorem valid_iff_holds {Types} (v : variant Types) :
  fits_size_t Types -> well_formed v ->
  (valid v = true <-> exists T (x : den T), holds v T x)
  /\ (valid v = false <-> is_empty v)
  /\ (forall T (x : den T), holds v T x ->
        forall U, U ∈ Types -> is_ U v = true <-> U = T).
Proof.
  intros Hfit Hwf. unfold valid. split; [|split].
  - destruct Hwf as [He|(T & x & Hv)].
    + destruct He as [Hi Hd]. rewrite Hi, Z.eqb_refl. simpl. split; [done|].
      intros (T & x & Hv). by destruct (is_empty_not_holds v T x).
    + pose proof (holds_index_valid v T x Hfit Hv).
      destruct (Z.eqb_spec (type_index v) invalid_value); [done|]. simpl.
      split; [|done]. intros _. by exists T, x.
  - destruct Hwf as [He|(T & x & Hv)].
    + destruct He as [Hi Hd]. rewrite Hi, Z.eqb_refl. simpl. by split.
    + pose proof (holds_index_valid v T x Hfit Hv).
      destruct (Z.eqb_spec (type_index v) invalid_value); [done|]. simpl.
      split; [done|]. intros He. by destruct (is_empty_not_holds v T x).
  - intros T x Hv U HU. unfold is_. split.
    + intros Heq%Z.eqb_eq. destruct (decide (U = T)) as [|Hne]; [done|].
      by destruct (holds_index_declared v T U x Hv HU Hne).
    + intros ->. destruct Hv as (_ & -> & _). apply Z.eqb_refl.
Qed.

(** [is] and [get] accept a type outside the pack.  Its id is
    [invalid_value], the index of an empty container: there is<T>() answers
    true and get<T>() passes its test and reads storage that holds no
    object.  On a container that holds an alternative is<T>() is false and
    get<T>() throws the type-mismatch error. *)
Theorem undeclared_type_observers {Types} (v : variant Types) T :
  T ∉ Types ->
  (is_empty v -> is_ T v = true /\ get T v = Undefined)
  /\ (fits_size_t Types -> forall U (y : den U), holds v U y ->
        is_ T v = false /\ get T v = Throw "in get()").
Proof.
  intros Hn. pose proof (type_traits_id_not_elem_of T Types Hn) as Hid. split.
  - intros [Hi Hd]. unfold is_, get. by rewrite Hid, Hi, Z.eqb_refl, Hd.
  - intros Hfit U y Hv.
    assert (T <> U) as Hne by (intros ->; by destruct Hv).
    split; [|by eapply holds_get_other].
    unfold is_. apply Z.eqb_neq. by eapply holds_index_other.
Qed.

(** The helper does nothing for an id that names no alternative, such as
    [invalid_value]: [destroy] leaves the storage and [copy] leaves the
    destination as they are. *)
Theorem helper_no_match_no_op Types (id : Z) (d old_value new_value : data_type) :
  ~ (0 <= id < sizeof_pack Types) ->
  helper_destroy Types id d = Ret d
  /\ helper_copy Types id old_value new_value = Ret new_value.
Proof.
  intros Hr. split.
  - by apply helper_destroy_no_match.
  - by apply helper_copy_no_match.
Qed.

(** For the id of a declared alternative the helper acts on that
    alternative: [destroy] ends the life of the stored object and [copy]
    constructs a copy of it, or lets the error of its copy constructor
    through. *)
Theorem helper_declared_alternative Types T (x : den T) (new_value : data_type) :
  T ∈ Types ->
  helper_destroy Types (type_traits_id T Types) (Some (existT T x)) = Ret None
  /\ helper_copy Types (type_traits_id T Types) (Some (existT T x)) new_value
     = match copy_throws T x with
       | Some what => Throw what
       | None => Ret (Some (existT T x))
       end.
Proof.
  intros HT. split.
  - rewrite (helper_destroy_id T _ _ Types HT eq_refl).
    by rewrite reinterpret_cast_live.
  - rewrite (helper_copy_id T _ _ _ Types HT eq_refl).
    by rewrite reinterpret_cast_live.
Qed.

(** Copy round trip: the copy of a container that holds [x] holds [x] too
    and is equal to the source, unless the copy constructor of [x] throws,
    in which case the error leaves the copy constructor of the container. *)
Theorem variant_copy_round_trip {Types} (old : variant Types) T (x : den T) :
  holds old T x ->
  (copy_throws T x = None ->
     variant_copy old = Ret old
     /\ exists tmp, variant_copy old = Ret tmp
          /\ is_ T tmp = true /\ get T tmp = Ret x)
  /\ (forall what, copy_throws T x = Some what ->
        variant_copy old = Throw what).
Proof.
  intros Hv. rewrite (variant_copy_holds old T x Hv). split.
  - intros ->. split; [done|]. exists old. split; [done|]. split.
    + unfold is_. destruct Hv as (_ & -> & _). apply Z.eqb_refl.
    + by apply holds_get.
  - by intros what ->.
Qed.

(** The copy of an empty container is an empty container. *)
Theorem variant_copy_of_empty {Types} (old : variant Types) :
  fits_size_t Types -> is_empty old ->
  exists tmp, variant_copy old = Ret tmp /\ is_empty tmp /\ valid tmp = false.
Proof.
  intros Hfit He. exists old. split; [by apply variant_copy_empty|].
  split; [done|]. unfold valid. destruct He as [-> _]. by rewrite Z.eqb_refl.
Qed.

Lemma variant_eta {Types} (v : variant Types) :
  make_variant (type_index v) (data v) = v.
Proof. by destruct v. Qed.

(** set/get round trip: after set<T>() with a declared T on a well-formed
    container, whatever it held, the container holds the constructed value:
    is<T>() is true and get<T>() returns it. *)
Theorem set_then_get {Types} (v : variant Types) T (x : den T) :
  fits_size_t Types -> well_formed v -> T ∈ Types ->
  exists v', set T (Ret x) v = (Ret (), v')
    /\ holds v' T x /\ is_ T v' = true /\ get T v' = Ret x
    /\ valid v' = true.
Proof.
  intros Hfit Hwf HT. unfold set.
  destruct (helper_destroy_well_formed v Hfit Hwf) as [d ->].
  rewrite (fits_storage_declared Types T HT).
  eexists. split; [done|].
  assert (holds (Types:=Types)
            (make_variant (type_traits_id T Types) (Some (existT T x))) T x)
    as Hv by done.
  split; [done|]. split; [apply Z.eqb_refl|]. split; [by apply holds_get|].
  unfold valid. cbn [type_index].
  pose proof (type_traits_id_valid T Types Hfit HT).
  by destruct (Z.eqb_spec (type_traits_id T Types) invalid_value).
Qed.

(** set<T>() is not exception safe: when the constructor of the new value
    throws on a container that holds an alternative U, the old value is
    already destroyed and the index still names U.  The container is left
    outside its invariants: is<U>() is true, but get<U>() and the next
    destruction act on storage without a live object.  An empty container
    is left as it was. *)
Theorem set_constructor_throws {Types} (v : variant Types) T what :
  fits_size_t Types ->
  (forall U (y : den U), holds v U y ->
     exists v', set T (Throw what) v = (Throw what, v')
       /\ type_index v' = type_index v /\ data v' = None
       /\ ~ well_formed v'
       /\ is_ U v' = true /\ get U v' = Undefined
       /\ helper_destroy Types (type_index v') (data v') = Undefined)
  /\ (is_empty v -> set T (Throw what) v = (Throw what, v)).
Proof.
  intros Hfit. split.
  - intros U y Hv. pose proof Hv as (HU & Hid & Hd). unfold set.
    rewrite (helper_destroy_id U _ _ Types HU Hid), Hd, reinterpret_cast_live.
    simpl. eexists. split; [done|]. cbn [type_index data].
    split; [done|]. split; [done|]. split; [|split; [|split]].
    + intros [[Hi _]|(T' & x' & _ & _ & Hx)]; [|done]. cbn in Hi.
      by destruct (holds_index_valid v U y Hfit Hv).
    + unfold is_. cbn [type_index]. rewrite Hid. apply Z.eqb_refl.
    + unfold get. cbn [type_index data]. by rewrite Hid, Z.eqb_refl.
    + by rewrite (helper_destroy_id U _ _ Types HU Hid).
  - intros [Hi Hd]. unfold set, fits_size_t in *.
    rewrite helper_destroy_no_match by (rewrite Hi; lia).
    by rewrite variant_eta.
Qed.


(** swap exchanges the discriminants and the storage bytes of two
    containers and touches no other object.  When both hold relocatable
    values, or none, each afterwards is what the other was, and swapping
    again restores the state.  A value that is not relocatable is not live
    in the other container: the index there names its alternative, and
    get<T>() has no defined behaviour.  Swapping a container with itself
    changes nothing. *)
Theorem swap_exchanges {Types} (s : store Types) (first second : nat)
  (a b : variant Types) :
  s !! first = Some a -> s !! second = Some b ->
  (first <> second ->
     exists s', swap first second s = (Ret (), s')
       /\ (exists a' b', s' !! first = Some b' /\ s' !! second = Some a'
             /\ type_index b' = type_index b /\ type_index a' = type_index a
             /\ (relocatable_held b -> b' = b)
             /\ (relocatable_held a -> a' = a)
             /\ (forall T (x : den T), holds a T x -> relocatable T x = false ->
                   data a' = None /\ get T a' = Undefined))
       /\ (forall p, p <> first -> p <> second -> s' !! p = s !! p)
       /\ (relocatable_held a -> relocatable_held b ->
             swap first second s' = (Ret (), s)))
  /\ (first = second -> swap first second s = (Ret (), s)).
Proof.
  intros Ha Hb. split.
  - intros Hne. unfold swap at 1. rewrite Ha, Hb.
    destruct (decide (first = second)) as [|_]; [done|].
    eexists. split; [done|]. split; [|split].
    + eexists _, _. split; [by rewrite lookup_insert_ne, lookup_insert_eq|].
      split; [apply lookup_insert_eq|]. cbn [type_index data].
      split; [done|]. split; [done|].
      split; [apply relocatable_held_eta|].
      split; [apply relocatable_held_eta|].
      intros T x (_ & Hid & Hd) Hrel. rewrite Hd. unfold relocate.
      rewrite Hrel. split; [done|].
      unfold get. cbn [type_index data]. by rewrite Hid, Z.eqb_refl.
    + intros p Hp1 Hp2. by rewrite !lookup_insert_ne.
    + intros Hra Hrb. rewrite !relocatable_held_eta by done.
      unfold swap.
      rewrite lookup_insert_ne, lookup_insert_eq, lookup_insert_eq by done.
      destruct (decide (first = second)) as [|_]; [done|].
      rewrite !relocatable_held_eta by done. f_equal.
      apply map_eq. intros p.
      destruct (decide (second = p)) as [<-|Hp2];
        [by rewrite lookup_insert_eq|].
      rewrite lookup_insert_ne by done.
      destruct (decide (first = p)) as [<-|Hp1];
        [by rewrite lookup_insert_eq|].
      by rewrite !lookup_insert_ne.
  - intros ->. unfold swap. rewrite Hb.
    by destruct (decide (second = second)).
Qed.

(** Assignment between containers whose values are relocatable keeps the
    invariants of every container, whether it returns or the copy throws,
    and leaves no temporary behind. *)
Theorem assign_keeps_invariants {Types} (s s' : store Types) (this src : nat)
  (tgt : variant Types) (r : outcome unit) :
  fits_size_t Types -> s !! this = Some tgt ->
  (forall p v, s !! p = Some v -> well_formed v /\ relocatable_held v) ->
  assign this src s = (r, s') ->
  (forall p v, s' !! p = Some v -> well_formed v /\ relocatable_held v)
  /\ dom s' = dom s.
Proof. intros Hfit Ht Hall Hassign. by eapply assign_well_formed. Qed.

End ContainerOperations.

(** ** Visitation, ordering and formatting *)

Section DispatchAndOrder.
Context `{Operators}.
Implicit Types (T U X Y Z : ty) (Types : list ty).

(** Unary visitation calls the visitor once, on the active value, a box
    replaced by its payload; [apply_visitor] is the same call. *)
Theorem visit_active_alternative {Types R} (v : variant Types) (f : visitor R)
  T (x : den T) :
  holds v T x ->
  visit v f = f (unwrap_ty T) (unwrapper T x)
  /\ apply_visitor f v = f (unwrap_ty T) (unwrapper T x)
  /\ visit v report = Ret (existT (unwrap_ty T) (unwrapper T x)).
Proof.
  intros Hv. unfold apply_visitor. by rewrite !(visit_holds v _ T x Hv).
Qed.

(** Unary visitation of a container whose index names no alternative, an
    empty container among them, throws the dispatch-failure error without
    calling the visitor. *)
Theorem visit_no_alternative {Types R} (v : variant Types) (f : visitor R) :
  fits_size_t Types ->
  (~ (0 <= type_index v < sizeof_pack Types) ->
     visit v f = Throw "unary dispatch: FAIL")
  /\ (is_empty v -> visit v f = Throw "unary dispatch: FAIL").
Proof.
  intros Hfit. split.
  - apply dispatcher_apply_no_match.
  - intros [Hi _]. by apply visit_empty.
Qed.

(** Binary visitation with an empty container on either side throws the
    dispatch-failure error without calling the visitor. *)
Theorem binary_visit_no_alternative {Types R} (v0 v1 : variant Types)
  (f : binary_visitor R) :
  fits_size_t Types -> is_empty v0 \/ is_empty v1 ->
  binary_visit v0 v1 f = Throw "binary dispatch: FAIL"
  /\ apply_visitor2 f v0 v1 = Throw "binary dispatch: FAIL".
Proof.
  intros Hfit He. unfold apply_visitor2.
  rewrite (binary_visit_empty v0 v1 f Hfit); [done|].
  destruct He as [[Hi _]|[Hi _]]; auto.
Qed.

(** Binary visitation by declaration position: with the left container
    holding the alternative at position i and the right one the alternative
    at position j, the visitor is called once; both arguments are unwrapped
    when i < j, and passed as they are stored, boxes included, when
    j <= i. *)
Theorem binary_visit_by_position {Types R} (v0 v1 : variant Types)
  (f : binary_visitor R) (i j : nat) X Y (a : den X) (b : den Y) :
  NoDup Types -> Types !! i = Some X -> Types !! j = Some Y ->
  holds v0 X a -> holds v1 Y b ->
  binary_visit v0 v1 f
  = if bool_decide (i < j)%nat
    then f (unwrap_ty X) (unwrapper X a) (unwrap_ty Y) (unwrapper Y b)
    else f X a Y b.
Proof.
  intros Hnd Hi Hj Hv0 Hv1.
  rewrite (binary_visit_holds v0 v1 f X Y a b Hv0 Hv1).
  rewrite (type_traits_id_lookup Types i X Hnd Hi).
  rewrite (type_traits_id_lookup Types j Y Hnd Hj).
  destruct (Z.ltb_spec (sizeof_pack Types - 1 - Z.of_nat j)
              (sizeof_pack Types - 1 - Z.of_nat i)).
  - rewrite bool_decide_eq_true_2; [done|lia].
  - rewrite bool_decide_eq_false_2; [done|lia].
Qed.

(** Ordering of different alternatives by declaration position: with [a]
    holding the alternative at position i and [b] the one at position j,
    i <> j, a < b is true exactly when [a]'s alternative is declared after
    [b]'s; exactly one of a < b and b < a is true, and a == b is false. *)
Theorem variant_lt_by_position {Types} (a b : variant Types) (i j : nat)
  X Y (x : den X) (y : den Y) :
  NoDup Types -> Types !! i = Some X -> Types !! j = Some Y -> i <> j ->
  holds a X x -> holds b Y y ->
  variant_lt a b = Ret (bool_decide (j < i)%nat)
  /\ variant_lt b a = Ret (bool_decide (i < j)%nat)
  /\ variant_lt a b <> variant_lt b a
  /\ variant_eq a b = Ret false.
Proof.
  intros Hnd Hi Hj Hne Ha Hb.
  pose proof Ha as (_ & Hia & _). pose proof Hb as (_ & Hib & _).
  rewrite (type_traits_id_lookup Types i X Hnd Hi) in Hia.
  rewrite (type_traits_id_lookup Types j Y Hnd Hj) in Hib.
  assert (type_index a <> type_index b) as Hab by lia.
  assert (type_index b <> type_index a) as Hba by lia.
  destruct (variant_eq_differ a b Hab) as [-> ->].
  destruct (variant_eq_differ b a Hba) as [_ ->].
  rewrite Hia, Hib.
  destruct (Z.ltb_spec (sizeof_pack Types - 1 - Z.of_nat i)
              (sizeof_pack Types - 1 - Z.of_nat j)),
           (Z.ltb_spec (sizeof_pack Types - 1 - Z.of_nat j)
              (sizeof_pack Types - 1 - Z.of_nat i)); try lia.
  - rewrite bool_decide_eq_true_2, bool_decide_eq_false_2 by lia. done.
  - rewrite bool_decide_eq_false_2, bool_decide_eq_true_2 by lia. done.
Qed.

(** Two containers that hold the same alternative, not a box, compare as
    their values do under the alternative's own operators; so == is
    reflexive and symmetric when the alternative's == is. *)
Theorem compare_same_plain_alternative {Types} (a b : variant Types)
  T (x y : den T) :
  holds a T x -> holds b T y -> is_wrapper T = false ->
  variant_eq a b = Ret (op_eq T x y)
  /\ variant_lt a b = Ret (op_lt T x y)
  /\ ((forall z : den T, op_eq T z z = true) -> variant_eq a a = Ret true)
  /\ ((forall z w : den T, op_eq T z w = op_eq T w z) ->
        variant_eq a b = variant_eq b a).
Proof.
  intros Ha Hb HT.
  destruct (compare_plain a b T x y Ha Hb HT) as [Heq Hlt].
  split; [done|]. split; [done|]. split.
  - intros Hrefl. by rewrite (proj1 (compare_plain a a T x x Ha Ha HT)), Hrefl.
  - intros Hsym.
    by rewrite Heq, (proj1 (compare_plain b a T y x Hb Ha HT)), (Hsym x y).
Qed.

(** Two containers that hold the same box alternative cannot be ordered:
    [operator<] throws the type-mismatch error. *)
Theorem variant_lt_on_boxes {Types} (a b : variant Types) T (x y : den T) :
  fits_size_t Types -> holds a T x -> holds b T y -> is_wrapper T = true ->
  variant_lt a b = Throw "in get()" /\ variant_lt a a = Throw "in get()".
Proof.
  intros Hfit Ha Hb HT. split; by eapply variant_lt_box_throws.
Qed.

(** Formatting writes the active value with its own stream insertion, a
    box as its payload; formatting an empty container throws the
    dispatch-failure error. *)
Theorem variant_shl_active_alternative {Types} (out : string) (v : variant Types) :
  (forall T (x : den T), holds v T x ->
     variant_shl out v = Ret (op_shl (unwrap_ty T) out (unwrapper T x)))
  /\ (fits_size_t Types -> is_empty v ->
        variant_shl out v = Throw "unary dispatch: FAIL").
Proof.
  split.
  - intros T x Hv. by apply variant_shl_holds.
  - intros Hfit [Hi _]. unfold variant_shl, apply_visitor. by apply visit_empty.
Qed.

Lemma variant_lt_differ {Types} (a b : variant Types) X Y (x : den X) (y : den Y) :
  holds a X x -> holds b Y y -> X <> Y ->
  type_index a <> type_index b
  /\ variant_lt a b = Ret (type_index a <? type_index b).
Proof.
  intros Ha Hb Hne.
  assert (type_index a <> type_index b) as Hab.
  { destruct Hb as (HY & -> & _). eapply holds_index_declared; eauto. }
  split; [done|]. by apply variant_eq_differ.
Qed.

(** [operator<] is a strict order on containers that hold alternatives
    other than boxes, as far as the alternatives' own [operator<] is:
    irreflexive, asymmetric and transitive, also across alternatives. *)
Theorem variant_lt_strict_order {Types} (a b c : variant Types)
  X Y Z (x : den X) (y : den Y) (z : den Z) :
  holds a X x -> holds b Y y -> holds c Z z ->
  is_wrapper X = false -> is_wrapper Y = false -> is_wrapper Z = false ->
  (forall u : den X, op_lt X u u = false) ->
  (forall u v w : den X,
     op_lt X u v = true -> op_lt X v w = true -> op_lt X u w = true) ->
  variant_lt a a = Ret false
  /\ (variant_lt a b = Ret true -> variant_lt b a = Ret false)
  /\ (variant_lt a b = Ret true -> variant_lt b c = Ret true ->
      variant_lt a c = Ret true).
Proof.
  intros Ha Hb Hc HX HY HZ Hirr Htrans. split; [|split].
  - by rewrite (proj2 (compare_plain a a X x x Ha Ha HX)), Hirr.
  - destruct (decide (X = Y)) as [<-|Hne].
    + rewrite (proj2 (compare_plain a b X x y Ha Hb HX)).
      rewrite (proj2 (compare_plain b a X y x Hb Ha HX)).
      intros [= Hxy]. f_equal. apply not_true_is_false. intros Hyx.
      pose proof (Htrans x y x Hxy Hyx). by rewrite Hirr in *.
    + destruct (variant_lt_differ a b X Y x y Ha Hb Hne) as [_ ->].
      destruct (variant_lt_differ b a Y X y x Hb Ha) as [_ ->]; [done|].
      intros [= Hlt%Z.ltb_lt]. f_equal. apply Z.ltb_ge. lia.
  - destruct (decide (X = Y)) as [<-|Hxy].
    + destruct (decide (X = Z)) as [<-|Hxz].
      * rewrite (proj2 (compare_plain a b X x y Ha Hb HX)).
        rewrite (proj2 (compare_plain b c X y z Hb Hc HX)).
        rewrite (proj2 (compare_plain a c X x z Ha Hc HX)).
        intros [= H1] [= H2]. f_equal. by eapply Htrans.
      * intros _.
        destruct (variant_lt_differ b c X Z y z Hb Hc Hxz) as [_ ->].
        destruct (variant_lt_differ a c X Z x z Ha Hc Hxz) as [_ ->].
        destruct Ha as (_ & -> & _), Hb as (_ & -> & _). done.
    + destruct (variant_lt_differ a b X Y x y Ha Hb Hxy) as [_ ->].
      intros [= H1%Z.ltb_lt] Hbc.
      assert (type_index b <= type_index c) as Hle.
      { destruct (decide (Y = Z)) as [<-|Hyz].
        - destruct Hb as (_ & -> & _), Hc as (_ & -> & _). lia.
        - destruct (variant_lt_differ b c Y Z y z Hb Hc Hyz) as [_ Hlt].
          rewrite Hlt in Hbc. injection Hbc as H2%Z.ltb_lt. lia. }
      assert (type_index a <> type_index c) as Hac by lia.
      rewrite (proj2 (variant_eq_differ a c Hac)). f_equal. apply Z.ltb_lt. lia.
Qed.

(** A copy compares equal to its source: for a container that holds a
    value of an alternative other than a box, with a copy constructor that
    returns and an equality that is reflexive. *)
Theorem variant_copy_equals_source {Types} (old : variant Types) T (x : den T) :
  holds old T x -> is_wrapper T = false -> copy_throws T x = None ->
  (forall z : den T, op_eq T z z = true) ->
  exists tmp, variant_copy old = Ret tmp
    /\ variant_eq tmp old = Ret true /\ variant_eq old tmp = Ret true
    /\ variant_lt tmp old = Ret (op_lt T x x).
Proof.
  intros Hv HT Hcopy Hrefl. exists old.
  rewrite (variant_copy_holds old T x Hv), Hcopy. split; [done|].
  destruct (compare_plain old old T x x Hv Hv HT) as [-> ->].
  by rewrite Hrefl.
Qed.

End DispatchAndOrder.

(** ** Assignment and reads *)

Section AssignmentAndReads.
Context `{Operators} `{!Relocation}.
Implicit Types (T : ty) (Types : list ty).

(** Assignment followed by a read, for containers whose values are
    relocatable: after [*this = src] returns, get<T>() on the target gives
    what it gives on the source, before and after, and equally is<T>(). *)
Theorem assign_then_get {Types} (s s' : store Types) (this src : nat)
  (tgt old : variant Types) T :
  fits_size_t Types -> well_formed tgt -> well_formed old ->
  relocatable_held tgt -> relocatable_held old ->
  s !! this = Some tgt -> s !! src = Some old ->
  assign this src s = (Ret (), s') ->
  call_const (get T) this s' = (get T old, s')
  /\ call_const (get T) src s' = (get T old, s')
  /\ call_const (fun v => Ret (is_ T v)) this s' = (Ret (is_ T old), s').
Proof.
  intros Hfit Hwt Hwo Hrt Hro Ht Hs Hassign.
  assert (variant_copy old = Ret old) as Hc.
  { destruct Hwo as [He|(U & y & Hv)]; [by apply variant_copy_empty|].
    rewrite (variant_copy_holds old U y Hv).
    destruct (copy_throws U y) as [what|] eqn:E; [|done].
    rewrite (assign_copy_throws s this src old what Hs) in Hassign; [done|].
    by rewrite (variant_copy_holds old U y Hv), E. }
  rewrite (assign_copy_returns s this src tgt old old Hfit Hwt Hrt Ht Hs Hc)
    in Hassign.
  rewrite relocatable_held_eta in Hassign by done.
  injection Hassign as <-. unfold call_const.
  rewrite lookup_insert_eq.
  destruct (decide (this = src)) as [->|Hne].
  - by rewrite lookup_insert_eq.
  - by rewrite lookup_insert_ne, Hs.
Qed.

End AssignmentAndReads.

(** ** The further properties on the example *)

Section MoreScenario.
Import Example.
#[local] Existing Instance alternatives.
#[local] Existing Instance operators.
#[local] Existing Instance layout.
#[local] Existing Instance relocation.

Local Abbreviation IntegerT := (@Prim alternatives Integer).
Local Abbreviation TextT := (@Prim alternatives Text).
Local Abbreviation BoxT := (@Wrapper alternatives (@Prim alternatives Integer)).

Lemma holds_c : holds c IntegerT 9.
Proof. split; [repeat constructor | split; reflexivity]. Qed.

Lemma well_formed_c : well_formed c.
Proof. right. eexists _, _. apply holds_c. Qed.

Lemma is_empty_e : is_empty e.
Proof. apply variant_default_is_empty. Qed.

Lemma well_formed_e : well_formed e.
Proof. left. apply is_empty_e. Qed.

Lemma fits_BoxTypes : fits_size_t BoxTypes.
Proof. unfold fits_size_t, sizeof_pack. rewrite invalid_value_eq. simpl. lia. Qed.

Lemma Integer_elem_of_Types : IntegerT ∈ Types.
Proof. repeat constructor. Qed.

Lemma Text_elem_of_Types : TextT ∈ Types.
Proof. repeat constructor. Qed.

Lemma Box_not_elem_of_Types : BoxT ∉ Types.
Proof. by intros [[=]|[[=]|[]%elem_of_nil]%elem_of_cons]%elem_of_cons. Qed.

Lemma no_position_invalid_value : ~ (0 <= invalid_value < sizeof_pack Types).
Proof. rewrite invalid_value_eq. unfold sizeof_pack. simpl. lia. Qed.

(** The storage of [variant<Integer, Text>] has the size of Text. *)
Lemma data_size_covers_alternatives_witness :
  exists size align,
    data_size Types = Some size /\ data_align Types = Some align
    /\ size_of IntegerT <= size /\ align_of IntegerT <= align
    /\ (exists U, U ∈ Types /\ size = size_of U)
    /\ (exists U, U ∈ Types /\ align = align_of U).
Proof.
  apply (data_size_covers_alternatives Types IntegerT Integer_elem_of_Types).
Defined.

Lemma is_valid_type_iff_id_witness :
  is_valid_type BoxT Types = true <-> type_traits_id BoxT Types <> invalid_value.
Proof. apply (is_valid_type_iff_id Types BoxT fits_Types). Defined.

(** [variant<Text, Integer, Integer>]: Integer has the id 1. *)
Lemma type_traits_id_first_occurrence_witness :
  type_traits_id IntegerT [TextT; IntegerT; IntegerT] = 1.
Proof.
  apply (type_traits_id_first_occurrence [TextT] [IntegerT] IntegerT).
  by intros [=]%list_elem_of_singleton.
Defined.

Lemma helper_no_match_no_op_witness :
  helper_destroy Types invalid_value (data a) = Ret (data a)
  /\ helper_copy Types invalid_value (data a) None = Ret None.
Proof.
  apply (helper_no_match_no_op Types invalid_value (data a) (data a) None
           no_position_invalid_value).
Defined.

Lemma helper_declared_alternative_witness :
  helper_destroy Types (type_traits_id TextT Types) (Some (existT TextT "hi"))
  = Ret None
  /\ helper_copy Types (type_traits_id TextT Types) (Some (existT TextT "hi")) None
     = match copy_throws TextT "hi" with
       | Some what => Throw what
       | None => Ret (Some (existT TextT "hi"))
       end.
Proof.
  apply (helper_declared_alternative Types TextT "hi" None Text_elem_of_Types).
Defined.

Lemma variant_copy_round_trip_witness :
  variant_copy b = Ret b
  /\ (exists tmp, variant_copy b = Ret tmp
         /\ is_ TextT tmp = true /\ get TextT tmp = Ret "hi")
  /\ @variant_copy _ operators_nomem _ b = Throw "std::bad_alloc".
Proof.
  split; [|split].
  - by apply (variant_copy_round_trip b TextT "hi" holds_b).
  - by apply (variant_copy_round_trip b TextT "hi" holds_b).
  - by apply (@variant_copy_round_trip _ operators_nomem _ b TextT "hi" holds_b).
Defined.

Lemma variant_copy_of_empty_witness :
  exists tmp, variant_copy e = Ret tmp /\ is_empty tmp /\ valid tmp = false.
Proof. apply (variant_copy_of_empty e fits_Types is_empty_e). Defined.

Lemma valid_iff_holds_witness :
  (valid a = true <-> exists T (x : den T), holds a T x)
  /\ (valid a = false <-> is_empty a)
  /\ (forall T (x : den T), holds a T x ->
        forall U, U ∈ Types -> is_ U a = true <-> U = T).
Proof. apply (valid_iff_holds a fits_Types well_formed_a). Defined.

Lemma undeclared_type_observers_witness :
  (is_ BoxT e = true /\ get BoxT e = Undefined)
  /\ (is_ BoxT a = false /\ get BoxT a = Throw "in get()").
Proof.
  split.
  - by apply (undeclared_type_observers e BoxT Box_not_elem_of_Types).
  - destruct (undeclared_type_observers a BoxT Box_not_elem_of_Types) as [_ Hheld].
    apply (Hheld fits_Types IntegerT 5 holds_a).
Defined.

(** [a.set<Text>("hi")] on the container that holds Integer(5). *)
Lemma set_then_get_witness :
  exists v', set TextT (Ret "hi") a = (Ret (), v')
    /\ holds v' TextT "hi" /\ is_ TextT v' = true /\ get TextT v' = Ret "hi"
    /\ valid v' = true.
Proof.
  apply (set_then_get a TextT "hi" fits_Types well_formed_a Text_elem_of_Types).
Defined.

Lemma set_constructor_throws_witness :
  exists v', set TextT (Throw "std::bad_alloc") a = (Throw "std::bad_alloc", v')
    /\ type_index v' = type_index a /\ data v' = None
    /\ ~ well_formed v'
    /\ is_ IntegerT v' = true /\ get IntegerT v' = Undefined
    /\ helper_destroy Types (type_index v') (data v') = Undefined.
Proof.
  destruct (set_constructor_throws a TextT "std::bad_alloc" fits_Types)
    as [Hheld _].
  apply (Hheld IntegerT 5 holds_a).
Defined.

Lemma integers_well_formed p v :
  integers !! p = Some v -> well_formed v /\ relocatable_held v.
Proof.
  unfold integers.
  intros [[_ <-]|[_ [[_ <-]|[_ Hv]]%lookup_insert_Some]]%lookup_insert_Some.
  - split; [apply well_formed_c|reflexivity].
  - split; [apply well_formed_a|reflexivity].
  - by rewrite lookup_empty in Hv.
Qed.

Lemma assign_integers :
  assign 0 1 integers = (Ret (), <[0%nat := c]> integers).
Proof.
  assert (variant_copy c = Ret c) as Hc
    by (by rewrite (variant_copy_holds c IntegerT 9 holds_c)).
  by rewrite (@assign_copy_returns _ operators relocation _ integers 0 1 a c c
                fits_Types well_formed_a eq_refl eq_refl eq_refl Hc).
Qed.


(** Two integers are swapped; the short text "hi" is swapped with an
    integer. *)
Lemma swap_exchanges_witness :
  (exists s', swap 0 1 integers = (Ret (), s')
     /\ s' !! 0%nat = Some c /\ s' !! 1%nat = Some a
     /\ swap 0 1 s' = (Ret (), integers))
  /\ (exists s' b', swap 1 0 objects = (Ret (), s')
        /\ s' !! 0%nat = Some b'
        /\ type_index b' = type_index b /\ data b' = None
        /\ get TextT b' = Undefined)
  /\ swap 1 1 objects = (Ret (), objects).
Proof.
  split; [|split].
  - destruct (swap_exchanges integers 0 1 a c eq_refl eq_refl) as [Hswap _].
    destruct Hswap as (s' & Hs & (a' & c' & H0 & H1 & _ & _ & Hc & Ha & _)
                       & _ & Hback); [lia|].
    exists s'. split; [done|].
    rewrite (Hc eq_refl) in H0. rewrite (Ha eq_refl) in H1.
    split; [done|]. split; [done|]. by apply Hback.
  - destruct (swap_exchanges objects 1 0 b a eq_refl eq_refl) as [Hswap _].
    destruct Hswap as (s' & Hs & (b' & a' & _ & H0 & _ & Hi & _ & _ & Hdead)
                       & _); [lia|].
    destruct (Hdead TextT "hi" holds_b eq_refl) as [Hd Hget].
    by exists s', b'.
  - by apply (swap_exchanges objects 1 1 b b eq_refl eq_refl).
Defined.

Lemma assign_keeps_invariants_witness :
  (forall p v, <[0%nat := c]> integers !! p = Some v ->
     well_formed v /\ relocatable_held v)
  /\ dom (<[0%nat := c]> integers) = dom integers.
Proof.
  apply (assign_keeps_invariants integers (<[0%nat := c]> integers) 0 1 a
           (Ret ()) fits_Types eq_refl integers_well_formed assign_integers).
Defined.

Lemma visit_active_alternative_witness :
  visit box5 report = Ret (existT IntegerT 5)
  /\ visit a (printer "x = ") = Ret "x = 5".
Proof.
  split.
  - by apply (visit_active_alternative box5 report BoxT
                (make_recursive_wrapper 5) holds_box5).
  - destruct (visit_active_alternative a (printer "x = ") IntegerT 5 holds_a)
      as (Hv & _ & _).
    rewrite Hv. reflexivity.
Defined.

Lemma visit_no_alternative_witness :
  visit e report = Throw "unary dispatch: FAIL"
  /\ visit (make_variant (Types:=Types) 7 None) report
     = Throw "unary dispatch: FAIL".
Proof.
  split.
  - destruct (visit_no_alternative e report fits_Types) as [_ Hempty].
    apply Hempty, is_empty_e.
  - destruct (visit_no_alternative (make_variant (Types:=Types) 7 None) report
                fits_Types) as [Hrange _].
    apply Hrange. unfold sizeof_pack. cbn. lia.
Defined.

Lemma binary_visit_no_alternative_witness :
  binary_visit e a report2 = Throw "binary dispatch: FAIL"
  /\ binary_visit a e report2 = Throw "binary dispatch: FAIL".
Proof.
  split.
  - apply (binary_visit_no_alternative e a report2 fits_Types).
    left. apply is_empty_e.
  - apply (binary_visit_no_alternative a e report2 fits_Types).
    right. apply is_empty_e.
Defined.

(** The boxed 5 at position 0 and the text at position 1, both ways. *)
Lemma binary_visit_by_position_witness :
  binary_visit box5 hi report2 = Ret (existT IntegerT 5, existT TextT "hi")
  /\ binary_visit hi box5 report2
     = Ret (existT TextT "hi", existT BoxT (make_recursive_wrapper 5)).
Proof.
  assert (NoDup BoxTypes) as Hnd.
  { apply NoDup_cons. split; [|apply NoDup_singleton].
    by intros [=]%list_elem_of_singleton. }
  split.
  - apply (binary_visit_by_position box5 hi report2 0 1 BoxT TextT
             (make_recursive_wrapper 5) "hi" Hnd eq_refl eq_refl
             holds_box5 holds_hi).
  - apply (binary_visit_by_position hi box5 report2 1 0 TextT BoxT
             "hi" (make_recursive_wrapper 5) Hnd eq_refl eq_refl
             holds_hi holds_box5).
Defined.

Lemma variant_lt_by_position_witness :
  variant_lt a b = Ret false /\ variant_lt b a = Ret true
  /\ variant_lt a b <> variant_lt b a /\ variant_eq a b = Ret false.
Proof.
  apply (variant_lt_by_position a b 0 1 IntegerT TextT 5 "hi" NoDup_Types
           eq_refl eq_refl ltac:(lia) holds_a holds_b).
Defined.

(** Integer(5) and Integer(9). *)
Lemma compare_same_plain_alternative_witness :
  variant_eq a c = Ret false /\ variant_lt a c = Ret true
  /\ variant_eq a a = Ret true /\ variant_eq a c = variant_eq c a.
Proof.
  destruct (compare_same_plain_alternative a c IntegerT 5 9 holds_a holds_c
              eq_refl) as (Heq & Hlt & Hrefl & Hsym).
  split; [exact Heq|]. split; [exact Hlt|]. split.
  - apply Hrefl. intros z. apply Z.eqb_refl.
  - apply Hsym. intros z w. apply Z.eqb_sym.
Defined.

Lemma variant_lt_on_boxes_witness :
  variant_lt box5 box7 = Throw "in get()"
  /\ variant_lt box5 box5 = Throw "in get()".
Proof.
  apply (variant_lt_on_boxes box5 box7 BoxT (make_recursive_wrapper 5)
           (make_recursive_wrapper 7) fits_BoxTypes holds_box5 holds_box7
           eq_refl).
Defined.

Lemma variant_shl_active_alternative_witness :
  variant_shl "" a = Ret "5" /\ variant_shl "" b = Ret "hi"
  /\ variant_shl "" box5 = Ret "5"
  /\ variant_shl "" e = Throw "unary dispatch: FAIL".
Proof.
  split; [|split; [|split]].
  - destruct (variant_shl_active_alternative "" a) as [Hv _].
    rewrite (Hv IntegerT 5 holds_a). reflexivity.
  - destruct (variant_shl_active_alternative "" b) as [Hv _].
    rewrite (Hv TextT "hi" holds_b). reflexivity.
  - destruct (variant_shl_active_alternative "" box5) as [Hv _].
    rewrite (Hv BoxT (make_recursive_wrapper 5) holds_box5). reflexivity.
  - apply (variant_shl_active_alternative "" e); [apply fits_Types|apply is_empty_e].
Defined.

(** Integer(5) < Integer(9) and Integer(9) < Integer(12). *)
Lemma variant_lt_strict_order_witness :
  variant_lt a a = Ret false
  /\ (variant_lt a c = Ret true -> variant_lt c a = Ret false)
  /\ (variant_lt a c = Ret true -> variant_lt c d = Ret true ->
      variant_lt a d = Ret true).
Proof.
  assert (holds d IntegerT 12) as holds_d.
  { split; [repeat constructor | split; reflexivity]. }
  apply (variant_lt_strict_order a c d IntegerT IntegerT IntegerT 5 9 12
           holds_a holds_c holds_d eq_refl eq_refl eq_refl).
  - intros u. apply Z.ltb_irrefl.
  - intros u v w Huv%Z.ltb_lt Hvw%Z.ltb_lt. apply Z.ltb_lt. lia.
Defined.

Lemma variant_copy_equals_source_witness :
  exists tmp, variant_copy a = Ret tmp
    /\ variant_eq tmp a = Ret true /\ variant_eq a tmp = Ret true
    /\ variant_lt tmp a = Ret (op_lt IntegerT 5 5).
Proof.
  apply (variant_copy_equals_source a IntegerT 5 holds_a);
    [reflexivity | reflexivity | intros z; apply Z.eqb_refl].
Defined.

(** After [a = c], get<Integer>() on [a] gives 9. *)
Lemma assign_then_get_witness :
  call_const (get IntegerT) 0 (<[0%nat := c]> integers)
  = (get IntegerT c, <[0%nat := c]> integers)
  /\ call_const (get IntegerT) 1 (<[0%nat := c]> integers)
     = (get IntegerT c, <[0%nat := c]> integers)
  /\ call_const (fun v => Ret (is_ IntegerT v)) 0 (<[0%nat := c]> integers)
     = (Ret (is_ IntegerT c), <[0%nat := c]> integers).
Proof.
  apply (@assign_then_get _ operators relocation _ integers
           (<[0%nat := c]> integers) 0 1 a c IntegerT
           fits_Types well_formed_a well_formed_c
           eq_refl eq_refl eq_refl eq_refl assign_integers).
Defined.

End MoreScenario.
